(** * TaskManager: a shallow embedding of [final_project/todo.py]

    The development follows the layout of the Python module:
    - [Str]: the few [str] methods the program calls ([lower], [strip],
      the [in] substring test);
    - [DT]: naive [datetime] values, as a day ordinal and the microseconds
      elapsed since midnight, with the calendar arithmetic of the standard
      [datetime] module and the part of [strptime] that the three formats of
      [parse_due] exercise;
    - the class [Task], the process state (the list held by the store, the
      class attribute [Task._id_counter], the data file) and a state and
      exception monad for the methods of the class [Tasks];
    - [_sort_open], [_fmt_due], [parse_due] and [main], the latter from the
      namespace of the argument parser on and without the layout of what it
      prints;
    - the theorems, one block per property. *)

From Stdlib Require Import ZArith List Bool Lia Ascii String.
From Stdlib Require Import Sorting.Permutation Sorting.Sorted.
Import ListNotations.

Local Open Scope Z_scope.

(* ================================================================== *)
(** * Strings *)

(** Python strings are modelled by [string], one [ascii] per code point, so
    the model covers the code points below 256.  On that range the functions
    below agree with [str.lower], [str.isspace] and [str.strip] of CPython. *)
Module Str.

Definition code (c : ascii) : Z := Z.of_N (N_of_ascii c).

Definition chr (z : Z) : ascii := ascii_of_N (Z.to_N z).

(** [c.lower()]: the letters A-Z and the Latin-1 capitals U+00C0-U+00DE
    (U+00D7, the multiplication sign, excepted) move 32 code points up. *)
Definition lower_char (c : ascii) : ascii :=
  let n := code c in
  if ((65 <=? n) && (n <=? 90))
     || ((192 <=? n) && (n <=? 222) && negb (n =? 215))
  then chr (n + 32) else c.

Fixpoint lower (s : string) : string :=
  match s with
  | EmptyString => EmptyString
  | String c r => String (lower_char c) (lower r)
  end.

(** [c.isspace()]. *)
Definition isspace (c : ascii) : bool :=
  let n := code c in
  ((9 <=? n) && (n <=? 13)) || ((28 <=? n) && (n <=? 32))
  || (n =? 133) || (n =? 160).

Fixpoint lstrip (s : string) : string :=
  match s with
  | EmptyString => EmptyString
  | String c r => if isspace c then lstrip r else s
  end.

Definition is_empty (s : string) : bool :=
  match s with EmptyString => true | _ => false end.

Fixpoint rstrip (s : string) : string :=
  match s with
  | EmptyString => EmptyString
  | String c r =>
      let r' := rstrip r in
      if isspace c && is_empty r' then EmptyString else String c r'
  end.

Definition strip (s : string) : string := rstrip (lstrip s).

(** [s in t] on strings: [s] occurs in [t] as a contiguous substring. *)
Fixpoint contains (s t : string) : bool :=
  String.prefix s t
  || match t with
     | EmptyString => false
     | String _ r => contains s r
     end.

(** [x in (a, b, ...)] for a tuple or list of strings. *)
Definition mem (x : string) (l : list string) : bool :=
  existsb (String.eqb x) l.

(** [l.index(x)]; [None] stands for the [ValueError] of a missing item. *)
Fixpoint index (x : string) (l : list string) : option Z :=
  match l with
  | [] => None
  | y :: r => if String.eqb y x then Some 0
              else option_map Z.succ (index x r)
  end.

(** [c.isdigit()] on one character: 0-9 and the superscripts U+00B2,
    U+00B3, U+00B9. *)
Definition isdigit_char (c : ascii) : bool :=
  let n := code c in
  ((48 <=? n) && (n <=? 57)) || (n =? 178) || (n =? 179) || (n =? 185).

Fixpoint all_chars (p : ascii -> bool) (s : string) : bool :=
  match s with
  | EmptyString => true
  | String c r => p c && all_chars p r
  end.

(** [str(n)] for an integer, as an f-string prints it: decimal digits, a
    minus sign in front of a negative number.  [fuel] bounds the number of
    digits. *)
Fixpoint digits (fuel : nat) (n : Z) (acc : string) : string :=
  match fuel with
  | O => acc
  | S fuel' =>
      let acc' := String (chr (48 + n mod 10)) acc in
      if n <? 10 then acc' else digits fuel' (n / 10) acc'
  end.

Definition of_int (n : Z) : string :=
  if n <? 0 then String (chr 45) (digits (S (Z.to_nat (- n))) (- n) "")
  else digits (S (Z.to_nat n)) n "".

(** [s.isdigit()]: at least one character, and digits only. *)
Definition isdigit (s : string) : bool :=
  negb (is_empty s) && all_chars isdigit_char s.

End Str.

(* ================================================================== *)
(** * Naive datetimes *)

Module DT.

(** A naive [datetime]: [ordinal] is [toordinal()] (day 1 is 0001-01-01), and
    [micros] the microseconds since midnight.  Day ordinals are not capped at
    9999-12-31: the [OverflowError] of the library on the last days of year
    9999 is outside the model. *)
Record datetime : Type := mkDT { ordinal : Z; micros : Z }.

Definition eqb (a b : datetime) : bool :=
  (ordinal a =? ordinal b) && (micros a =? micros b).

(** [a <= b] and [a < b] on naive datetimes, lexicographic on (day, time). *)
Definition leb (a b : datetime) : bool :=
  (ordinal a <? ordinal b)
  || ((ordinal a =? ordinal b) && (micros a <=? micros b)).

Definition ltb (a b : datetime) : bool :=
  (ordinal a <? ordinal b)
  || ((ordinal a =? ordinal b) && (micros a <? micros b)).

(** [d.weekday()]: Monday is 0; day 1 was a Monday. *)
Definition weekday (d : datetime) : Z := (ordinal d + 6) mod 7.

(** [d + timedelta(days=k)]. *)
Definition add_days (d : datetime) (k : Z) : datetime :=
  mkDT (ordinal d + k) (micros d).

(** 23:59:59.000000 in microseconds since midnight. *)
Definition end_of_day_micros : Z := ((23 * 60 + 59) * 60 + 59) * 1000000.

(** [d.replace(hour=23, minute=59, second=59, microsecond=0)]. *)
Definition end_of_day (d : datetime) : datetime :=
  mkDT (ordinal d) end_of_day_micros.

(** ** The proleptic Gregorian calendar of the [datetime] module *)

Definition is_leap (y : Z) : bool :=
  (y mod 4 =? 0) && (negb (y mod 100 =? 0) || (y mod 400 =? 0)).

Definition days_in_month (y m : Z) : Z :=
  if m =? 2 then (if is_leap y then 29 else 28)
  else if (m =? 4) || (m =? 6) || (m =? 9) || (m =? 11) then 30
  else 31.

Definition days_before_year (y : Z) : Z :=
  let p := y - 1 in p * 365 + p / 4 - p / 100 + p / 400.

Definition days_before_month (y m : Z) : Z :=
  nth (Z.to_nat (m - 1)) [0; 31; 59; 90; 120; 151; 181; 212; 243; 273; 304; 334] 0
  + (if (2 <? m) && is_leap y then 1 else 0).

(** [datetime(y, m, d)]: midnight of that day; [None] is the [ValueError]
    of a year outside 1..9999, a month outside 1..12 or a day the month
    does not have. *)
Definition of_ymd (y m d : Z) : option datetime :=
  if (1 <=? y) && (y <=? 9999) && (1 <=? m) && (m <=? 12)
     && (1 <=? d) && (d <=? days_in_month y m)
  then Some (mkDT (days_before_year y + days_before_month y m + d) 0)
  else None.

(** [_ord2ymd]: the date of a day ordinal.  [month_day n leap] is its
    last part: the month and the day of the day number [n] (from 0) of a
    year, leap or not. *)
Definition days_before_month_table (m : Z) : Z :=
  nth (Z.to_nat m)
      [-1; 0; 31; 59; 90; 120; 151; 181; 212; 243; 273; 304; 334] 0.

Definition days_in_month_table (m : Z) : Z :=
  nth (Z.to_nat m) [-1; 31; 28; 31; 30; 31; 30; 31; 31; 30; 31; 30; 31] 0.

Definition month_day (n : Z) (leapyear : bool) : Z * Z :=
  let month := Z.shiftr (n + 50) 5 in
  let preceding :=
    days_before_month_table month
    + (if (2 <? month) && leapyear then 1 else 0) in
  if n <? preceding
  then
    let month := month - 1 in
    let preceding :=
      preceding - (days_in_month_table month
                   + (if (month =? 2) && leapyear then 1 else 0)) in
    (month, n - preceding + 1)
  else (month, n - preceding + 1).

Definition ord2ymd (ord : Z) : Z * Z * Z :=
  let n := ord - 1 in
  let n400 := n / 146097 in
  let n := n mod 146097 in
  let year := n400 * 400 + 1 in
  let n100 := n / 36524 in
  let n := n mod 36524 in
  let n4 := n / 1461 in
  let n := n mod 1461 in
  let n1 := n / 365 in
  let n := n mod 365 in
  let year := year + n100 * 100 + n4 * 4 + n1 in
  if (n1 =? 4) || (n100 =? 4) then (year - 1, 12, 31)
  else
    let leapyear := (n1 =? 3) && (negb (n4 =? 24) || (n100 =? 3)) in
    let '(month, day) := month_day n leapyear in
    (year, month, day).

(** [d.year], [d.month], [d.day] *)
Definition year (d : datetime) : Z := fst (fst (ord2ymd (ordinal d))).
Definition month (d : datetime) : Z := snd (fst (ord2ymd (ordinal d))).
Definition day (d : datetime) : Z := snd (ord2ymd (ordinal d)).

(** The ordinals of 0001-01-01 and 9999-12-31, the range of [datetime]. *)
Definition min_ordinal : Z := 1.
Definition max_ordinal : Z := 3652059.

(** ** [datetime.strptime] on the directives the program uses

    [_strptime] turns the format into a regular expression, matches it at
    the start of the text, rejects text left over after the match, converts
    the groups and builds the date.  A directive is modelled by the list of
    the ways its group can match, in the order the backtracking matcher
    tries the alternatives. *)
Inductive directive : Type :=
| D_m                 (* %m : 1[0-2]|0[1-9]|[1-9] *)
| D_d                 (* %d : 3[0-1]|[1-2]\d|0[1-9]|[1-9]| [1-9] *)
| D_Y                 (* %Y : \d\d\d\d *)
| D_y                 (* %y : \d\d *)
| D_lit (c : ascii).  (* a literal character of the format *)

Definition between (lo hi : Z) (c : ascii) : bool :=
  (lo <=? Str.code c) && (Str.code c <=? hi).

Definition is_digit : ascii -> bool := between 48 57.

Definition digit_val (c : ascii) : Z := Str.code c - 48.

Definition take1 (p : ascii -> bool) (s : string) : list (Z * string) :=
  match s with
  | String a r => if p a then [(digit_val a, r)] else []
  | _ => []
  end.

Definition take2 (p q : ascii -> bool) (s : string) : list (Z * string) :=
  match s with
  | String a (String b r) =>
      if p a && q b then [(10 * digit_val a + digit_val b, r)] else []
  | _ => []
  end.

Definition take4 (s : string) : list (Z * string) :=
  match s with
  | String a (String b (String c (String d r))) =>
      if is_digit a && is_digit b && is_digit c && is_digit d
      then [(1000 * digit_val a + 100 * digit_val b
             + 10 * digit_val c + digit_val d, r)]
      else []
  | _ => []
  end.

(** The groups found so far; [_strptime] starts from month = day = 1 and
    falls back on the year 1900. *)
Record fields : Type := mkFields { f_year : Z; f_month : Z; f_day : Z }.

Definition no_fields : fields := mkFields 1900 1 1.

Definition alternatives (d : directive) (f : fields) (s : string)
  : list (fields * string) :=
  match d with
  | D_m =>
      map (fun '(v, r) => (mkFields (f_year f) v (f_day f), r))
          (take2 (between 49 49) (between 48 50) s
           ++ take2 (between 48 48) (between 49 57) s
           ++ take1 (between 49 57) s)
  | D_d =>
      map (fun '(v, r) => (mkFields (f_year f) (f_month f) v, r))
          (take2 (between 51 51) (between 48 49) s
           ++ take2 (between 49 50) is_digit s
           ++ take2 (between 48 48) (between 49 57) s
           ++ take1 (between 49 57) s
           ++ match s with
              | String a r => if between 32 32 a
                              then take1 (between 49 57) r else []
              | _ => []
              end)
  | D_Y =>
      map (fun '(v, r) => (mkFields v (f_month f) (f_day f), r)) (take4 s)
  | D_y =>
      map (fun '(v, r) =>
             (mkFields (if v <=? 68 then v + 2000 else v + 1900)
                       (f_month f) (f_day f), r))
          (take2 is_digit is_digit s)
  | D_lit c =>
      match s with
      | String a r => if Ascii.eqb a c then [(f, r)] else []
      | _ => []
      end
  end.

(** All the matches of the expression at the start of [s], first choice
    first; [re.match] returns the head of this list. *)
Fixpoint matches (fmt : list directive) (f : fields) (s : string)
  : list (fields * string) :=
  match fmt with
  | [] => [(f, s)]
  | d :: fmt' =>
      flat_map (fun '(f', r) => matches fmt' f' r) (alternatives d f s)
  end.

(** [datetime.strptime(s, fmt)]; [None] is its [ValueError]: no match,
    unconverted data after the match, or an impossible calendar date. *)
Definition strptime (s : string) (fmt : list directive) : option datetime :=
  match matches fmt no_fields s with
  | [] => None
  | (f, r) :: _ =>
      if Str.is_empty r then of_ymd (f_year f) (f_month f) (f_day f)
      else None
  end.

End DT.

Export DT(datetime).

Local Open Scope string_scope.
Local Open Scope list_scope.
Local Open Scope Z_scope.

(* ================================================================== *)
(** * Stable sorting, as [list.sort(key=...)] *)

(** [list.sort] is stable and compares keys with [<] only: an item moves in
    front of an earlier one exactly when its key is strictly smaller.  The
    insertion sort below computes that unique result. *)
Section StableSort.

Context {A K : Type}.
Variable ltb : K -> K -> bool.
Variable key : A -> K.

Fixpoint insert_by (x : A) (l : list A) : list A :=
  match l with
  | [] => [x]
  | y :: r => if ltb (key y) (key x) then y :: insert_by x r
              else x :: y :: r
  end.

Fixpoint sort_by (l : list A) : list A :=
  match l with
  | [] => []
  | x :: r => insert_by x (sort_by r)
  end.

End StableSort.

(* ================================================================== *)
(** * The class [Task] *)

Record Task : Type := mkTask {
  created   : datetime;
  completed : option datetime;
  name      : string;
  unique_id : Z;
  priority  : Z;
  due_date  : option datetime
}.

(** [priority if priority in (1, 2, 3) else 1] *)
Definition coerce_priority (p : Z) : Z :=
  if (p =? 1) || (p =? 2) || (p =? 3) then p else 1.

(** [Task.mark_completed], [now] being the value of [datetime.now()]. *)
Definition mark_completed (now : datetime) (t : Task) : Task :=
  mkTask (created t) (Some now) (name t) (unique_id t) (priority t)
         (due_date t).

(* ================================================================== *)
(** * Process state, data file and the monad of the store methods *)

(** What [self.filepath] holds: nothing, bytes that [pickle.load] (or the
    unpacking of its result) rejects, or a pickled pair [(tasks, last_id)].
    Pickling is taken to be faithful on task lists. *)
Inductive DataFile : Type :=
| NoFile
| Unreadable
| Pickled (ts : list Task) (last_id : Z).

(** The file system as the store sees it.  [writable = false] stands for a
    directory in which [os.makedirs], [open(tmp, "wb")], [os.replace] and
    [os.remove] raise [OSError] (read-only medium, missing permission). *)
Record Disk : Type := mkDisk { file : DataFile; writable : bool }.

(** A process: the list [self.tasks] of its store, the class attribute
    [Task._id_counter], and the disk. *)
Record State : Type := mkState {
  tasks       : list Task;
  _id_counter : Z;
  disk        : Disk
}.

(** [ValueError raw] is the error of [parse_due], whose message quotes the
    text [raw] it was given. *)
Inductive exn : Type :=
| OSError
| ValueError (raw : string).

(** A call either returns a value or raises; the state reached is kept in
    both cases, since Python does not undo assignments when it unwinds. *)
Inductive Outcome (A : Type) : Type :=
| Returned (a : A) (s : State)
| Raised (e : exn) (s : State).

Arguments Returned {A} a s.
Arguments Raised {A} e s.

Definition M (A : Type) : Type := State -> Outcome A.

Definition ret {A} (a : A) : M A := fun s => Returned a s.

Definition bind {A B} (m : M A) (k : A -> M B) : M B :=
  fun s => match m s with
           | Returned a s' => k a s'
           | Raised e s' => Raised e s'
           end.

Definition raise {A} (e : exn) : M A := fun s => Raised e s.

Notation "x <- m ;; k" := (bind m (fun x => k))
  (at level 61, m at next level, right associativity).
Notation "m ;; k" := (bind m (fun _ => k))
  (at level 61, right associativity).

Definition final {A} (o : Outcome A) : State :=
  match o with Returned _ s => s | Raised _ s => s end.

Definition returned {A} (o : Outcome A) : option A :=
  match o with Returned a _ => Some a | Raised _ _ => None end.

Definition get_tasks : M (list Task) := fun s => Returned (tasks s) s.

Definition set_tasks (ts : list Task) : M unit :=
  fun s => Returned tt (mkState ts (_id_counter s) (disk s)).

Definition get_counter : M Z := fun s => Returned (_id_counter s) s.

Definition set_counter (n : Z) : M unit :=
  fun s => Returned tt (mkState (tasks s) n (disk s)).

Definition get_file : M DataFile := fun s => Returned (file (disk s)) s.

(** Writing or removing the data file: [OSError] on a disk that is not
    writable, which then keeps what it had. *)
Definition write_file (f : DataFile) : M unit :=
  fun s => if writable (disk s)
           then Returned tt (mkState (tasks s) (_id_counter s)
                                     (mkDisk f true))
           else Raised OSError s.

(** [Task(name, priority, due_date)]: takes the counter as its id and
    increments the counter. *)
Definition Task_init (nm : string) (prio : Z) (due : option datetime)
  (now : datetime) : M Task :=
  n <- get_counter ;;
  set_counter (n + 1) ;;
  ret (mkTask now None nm n (coerce_priority prio) due).

(* ================================================================== *)
(** * The class [Tasks] *)

Module Tasks.

(** [max((t.unique_id for t in self.tasks), default=0)] *)
Fixpoint max_id (ts : list Task) : option Z :=
  match ts with
  | [] => None
  | t :: r => match max_id r with
              | None => Some (unique_id t)
              | Some m => Some (Z.max (unique_id t) m)
              end
  end.

Definition last_id_of (ts : list Task) : Z :=
  match max_id ts with Some m => m | None => 0 end.

(** [_atomic_dump]: the temporary file replaces the data file in one step,
    so a failed dump leaves the data file as it was. *)
Definition _atomic_dump (ts : list Task) (last_id : Z) : M unit :=
  write_file (Pickled ts last_id).

Definition pickle_tasks : M unit :=
  ts <- get_tasks ;;
  _atomic_dump ts (last_id_of ts).

Definition by_created : list Task -> list Task := sort_by DT.ltb created.

(** [_load]: a missing file and a file that cannot be read both give the
    empty list; a readable one gives its tasks, sorted by creation time,
    and moves the counter past the stored [last_id]. *)
Definition _load : M unit :=
  f <- get_file ;;
  match f with
  | NoFile => set_tasks []
  | Unreadable => set_tasks []
  | Pickled ts last_id =>
      set_tasks ts ;;
      n <- get_counter ;;
      set_counter (Z.max n (last_id + 1)) ;;
      ts' <- get_tasks ;;
      set_tasks (by_created ts')
  end.

(** [Tasks.__init__]; the hook registered with [atexit] is [at_exit]. *)
Definition __init__ : M unit :=
  set_tasks [] ;;
  _load.

(** A new interpreter over a disk: the class attribute starts at 1 and
    the store is constructed. *)
Definition start (d : Disk) : State := final (__init__ (mkState [] 1 d)).

(** Normal interpreter exit: the registered [pickle_tasks] runs, and an
    exception it raises is reported and dropped.  What remains is the disk. *)
Definition at_exit (s : State) : Disk := disk (final (pickle_tasks s)).

Definition add (nm : string) (prio : Z) (due : option datetime)
  (now : datetime) : M Task :=
  t <- Task_init nm prio due now ;;
  ts <- get_tasks ;;
  set_tasks (ts ++ [t]) ;;
  ts' <- get_tasks ;;
  set_tasks (by_created ts') ;;
  pickle_tasks ;;
  ret t.

Definition has_id (task_id : Z) (t : Task) : bool := unique_id t =? task_id.

(** [del self.tasks[i]] at the first index whose task has the id. *)
Fixpoint remove_first (task_id : Z) (ts : list Task) : list Task :=
  match ts with
  | [] => []
  | t :: r => if has_id task_id t then r else t :: remove_first task_id r
  end.

Definition delete (task_id : Z) : M bool :=
  ts <- get_tasks ;;
  match find (has_id task_id) ts with
  | Some _ =>
      set_tasks (remove_first task_id ts) ;;
      pickle_tasks ;;
      ret true
  | None => ret false
  end.

(** The list after [t.mark_completed()] on the first task with the id: the
    list holds the task object itself, so the change shows in place. *)
Fixpoint mark_first (task_id : Z) (now : datetime) (ts : list Task)
  : list Task :=
  match ts with
  | [] => []
  | t :: r => if has_id task_id t then mark_completed now t :: r
              else t :: mark_first task_id now r
  end.

Definition done (task_id : Z) (now : datetime) : M bool :=
  ts <- get_tasks ;;
  match find (has_id task_id) ts with
  | Some t =>
      match completed t with
      | None =>
          set_tasks (mark_first task_id now ts) ;;
          pickle_tasks ;;
          ret true
      | Some _ => ret true
      end
  | None => ret false
  end.

(** [query]: each filter that is switched on wraps the previous generator.
    A [datetime] is always true in a condition, so [if due_before] and
    [t.due_date and ...] test for [None] only; [if texts] also rejects the
    empty list. *)
Definition text_matches (lowers : list string) (t : Task) : bool :=
  existsb (fun s => Str.contains s (Str.lower (name t))) lowers.

Definition due_le (bound : datetime) (t : Task) : bool :=
  match due_date t with Some d => DT.leb d bound | None => false end.

Definition due_ge (bound : datetime) (t : Task) : bool :=
  match due_date t with Some d => DT.leb bound d | None => false end.

Definition is_completed (t : Task) : bool :=
  match completed t with Some _ => true | None => false end.

Definition query (texts : option (list string)) (prio : option Z)
  (due_before due_after : option datetime) (completed_ : option bool)
  (self : State) : list Task :=
  let results := tasks self in
  let results :=
    match texts with
    | Some ((_ :: _) as l) =>
        let lowers := map Str.lower l in
        filter (text_matches lowers) results
    | _ => results
    end in
  let results :=
    match prio with
    | Some p => if (p =? 1) || (p =? 2) || (p =? 3)
                then filter (fun t => priority t =? p) results
                else results
    | None => results
    end in
  let results :=
    match due_before with
    | Some b => filter (due_le b) results
    | None => results
    end in
  let results :=
    match due_after with
    | Some a => filter (due_ge a) results
    | None => results
    end in
  match completed_ with
  | Some c => filter (fun t => Bool.eqb (is_completed t) c) results
  | None => results
  end.

(** [reset]: [os.remove] runs only when the file exists. *)
Definition reset : M unit :=
  set_tasks [] ;;
  set_counter 1 ;;
  f <- get_file ;;
  match f with
  | NoFile => ret tt
  | _ => write_file NoFile
  end.

(** [report].  The dictionary [by_priority] is kept as the list of its
    items; adding to a key it does not have is the [KeyError] of
    [by_priority[t.priority] += 1], here [None]. *)
Fixpoint bump (k : Z) (d : list (Z * Z)) : option (list (Z * Z)) :=
  match d with
  | [] => None
  | (k', v) :: r =>
      if k' =? k then Some ((k', v + 1) :: r)
      else option_map (cons (k', v)) (bump k r)
  end.

Fixpoint tally (ts : list Task) (d : list (Z * Z)) : option (list (Z * Z)) :=
  match ts with
  | [] => Some d
  | t :: r =>
      match bump (priority t) d with
      | Some d' => tally r d'
      | None => None
      end
  end.

Fixpoint lookup (k : Z) (d : list (Z * Z)) : option Z :=
  match d with
  | [] => None
  | (k', v) :: r => if k' =? k then Some v else lookup k r
  end.

Record Report : Type := mkReport {
  r_total       : Z;
  r_open        : Z;
  r_completed   : Z;
  r_by_priority : list (Z * Z)
}.

Definition report (self : State) : option Report :=
  let total := Z.of_nat (List.length (tasks self)) in
  let done :=
    fold_left (fun acc t => acc + (if is_completed t then 1 else 0))
              (tasks self) 0 in
  let open_ := total - done in
  match tally (tasks self) [(1, 0); (2, 0); (3, 0)] with
  | Some by_priority => Some (mkReport total open_ done by_priority)
  | None => None
  end.

(** [list]: a copy of the list, or the tasks not yet completed. *)
Definition list (include_completed : bool) (self : State) : list Task :=
  if include_completed then tasks self
  else filter (fun t => negb (is_completed t)) (tasks self).

End Tasks.

(* ================================================================== *)
(** * [_sort_open] *)

(** The sort keys [(t.due_date, t.priority, t.created)] and
    [(t.priority, t.created)]. *)
Definition key_with_due (t : Task) : option datetime * Z * datetime :=
  (due_date t, priority t, created t).

Definition key_without_due (t : Task) : Z * datetime :=
  (priority t, created t).

(** [a < b] on the key tuples.  Python compares tuples lexicographically:
    the first position where the items differ decides. *)
Definition prio_created_ltb (a b : Z * datetime) : bool :=
  let '(p1, c1) := a in
  let '(p2, c2) := b in
  if p1 =? p2 then DT.ltb c1 c2 else p1 <? p2.

(** The due dates compared here are never [None]: [with_due] holds only
    tasks that have one. *)
Definition due_prio_created_ltb (a b : option datetime * Z * datetime) : bool :=
  let '(d1, p1, c1) := a in
  let '(d2, p2, c2) := b in
  match d1, d2 with
  | Some x, Some y =>
      if DT.eqb x y then prio_created_ltb (p1, c1) (p2, c2) else DT.ltb x y
  | _, _ => false
  end.

Definition has_due (t : Task) : bool :=
  match due_date t with Some _ => true | None => false end.

Definition _sort_open (ts : list Task) : list Task :=
  let with_due := filter has_due ts in
  let without_due := filter (fun t => negb (has_due t)) ts in
  let with_due := sort_by due_prio_created_ltb key_with_due with_due in
  let without_due := sort_by prio_created_ltb key_without_due without_due in
  with_due ++ without_due.

(* ================================================================== *)
(** * [_fmt_due] and [_age_days] *)

(** [f"{dt.month}/{dt.day}/{dt.year}"], or ["-"] without a date. *)
Definition _fmt_due (dt : option datetime) : string :=
  match dt with
  | None => "-"
  | Some d =>
      (Str.of_int (DT.month d) ++ "/" ++ Str.of_int (DT.day d) ++ "/"
       ++ Str.of_int (DT.year d))%string
  end.

(** [(datetime.now().date() - created_dt.date()).days] *)
Definition _age_days (now created_dt : datetime) : Z :=
  DT.ordinal now - DT.ordinal created_dt.

(* ================================================================== *)
(** * [parse_due] *)

Inductive Result (A : Type) : Type :=
| Ok (a : A)
| Err (e : exn).

Arguments Ok {A} a.
Arguments Err {A} e.

Definition no_date_tokens : list string := ["none"; "no"; "na"; "n/a"; "-"].

Definition weekdays : list string :=
  ["monday"; "tuesday"; "wednesday"; "thursday"; "friday"; "saturday";
   "sunday"].

(** ["%m/%d/%Y"], ["%m/%d/%y"] and ["%Y-%m-%d"] *)
Definition fmt_mdY : list DT.directive :=
  [DT.D_m; DT.D_lit "/"; DT.D_d; DT.D_lit "/"; DT.D_Y].

Definition fmt_mdy : list DT.directive :=
  [DT.D_m; DT.D_lit "/"; DT.D_d; DT.D_lit "/"; DT.D_y].

Definition fmt_Ymd : list DT.directive :=
  [DT.D_Y; DT.D_lit "-"; DT.D_m; DT.D_lit "-"; DT.D_d].

Definition fmts : list (list DT.directive) := [fmt_mdY; fmt_mdy; fmt_Ymd].

(** The loop over the formats: the first [strptime] that does not raise
    [ValueError] returns; after the last one the function raises. *)
Fixpoint try_formats (raw : string) (fs : list (list DT.directive))
  : Result (option datetime) :=
  match fs with
  | [] => Err (ValueError raw)
  | fmt :: rest =>
      match DT.strptime raw fmt with
      | Some d => Ok (Some d)
      | None => try_formats raw rest
      end
  end.

(** [parse_due(raw)], [now] being the value of [datetime.now()]. *)
Definition parse_due (now : datetime) (raw : option string)
  : Result (option datetime) :=
  match raw with
  | None => Ok None
  | Some "" => Ok None
  | Some raw =>
      let s := Str.lower (Str.strip raw) in
      if Str.mem s no_date_tokens then Ok None
      else if (s =? "today")%string then Ok (Some (DT.end_of_day now))
      else if (s =? "tomorrow")%string
      then Ok (Some (DT.end_of_day (DT.add_days now 1)))
      else
        match Str.index s weekdays with
        | Some target =>
            let delta := (target - DT.weekday now) mod 7 in
            let delta := if delta =? 0 then 7 else delta in
            Ok (Some (DT.end_of_day (DT.add_days now delta)))
        | None => try_formats raw fmts
        end
  end.

(* ================================================================== *)
(** * [main] *)

(** The namespace [parse_args] returns, and whether ["--priority"] occurs
    on the command line.  [argparse] itself is not modelled. *)
Record Args : Type := mkArgs {
  arg_reset      : bool;
  arg_add        : option string;
  arg_delete     : option Z;
  arg_list       : bool;
  arg_report     : bool;
  arg_query      : option (list string);
  arg_done       : option Z;
  arg_priority   : Z;
  arg_due        : option string;
  arg_due_before : option string;
  arg_due_after  : option string;
  priority_given : bool
}.

(** What a run prints, without the layout: the message, or the rows of
    the table in the order they are printed. *)
Inductive Output : Type :=
| Created_task (task_id : Z)
| Error_creating
| Deleted_task (task_id : Z)
| Completed_task (task_id : Z)
| Task_not_found
| No_tasks
| No_matches
| Open_table (rows : list Task)
| Report_table (rows : list Task)
| All_deleted
| Nothing
| Traceback (e : exn).

(** [x if x else None] for an optional text: the empty text counts as
    missing. *)
Definition truthy (o : option string) : option string :=
  match o with
  | Some "" => None
  | _ => o
  end.

(** The body of the [try] of the add command; [Error_creating] stands for
    the [except Exception] branch.  [clock k] is the value of the call
    number [k] of [datetime.now()]. *)
Definition main_add (raw_title : string) (args : Args)
  (clock : nat -> datetime) : M (Z * Output) :=
  fun s =>
    let title := Str.strip raw_title in
    if Str.is_empty title || Str.isdigit title
    then Returned (1, Error_creating) s
    else
      let parsed :=
        match truthy (arg_due args) with
        | Some raw =>
            match parse_due (clock 0%nat) (Some raw) with
            | Ok due_dt => Some (due_dt, clock 1%nat)
            | Err _ => None
            end
        | None => Some (None, clock 0%nat)
        end in
      match parsed with
      | None => Returned (1, Error_creating) s
      | Some (due_dt, now) =>
          match Tasks.add title (arg_priority args) due_dt now s with
          | Returned t s' => Returned (0, Created_task (unique_id t)) s'
          | Raised _ s' => Returned (1, Error_creating) s'
          end
      end.

(** The bounds of the query command: a [ValueError] of [parse_due] is not
    caught. *)
Definition main_query (texts : list string) (args : Args)
  (clock : nat -> datetime) : M (Z * Output) :=
  fun s =>
    let before :=
      match truthy (arg_due_before args) with
      | Some raw => (parse_due (clock 0%nat) (Some raw), 1%nat)
      | None => (Ok None, 0%nat)
      end in
    match before with
    | (Err e, _) => Raised e s
    | (Ok due_before, k) =>
        let after :=
          match truthy (arg_due_after args) with
          | Some raw => parse_due (clock k) (Some raw)
          | None => Ok None
          end in
        match after with
        | Err e => Raised e s
        | Ok due_after =>
            let results :=
              Tasks.query (Some texts)
                (if priority_given args then Some (arg_priority args)
                 else None)
                due_before due_after (Some false) s in
            match results with
            | [] => Returned (0, No_matches) s
            | _ => Returned (0, Open_table (_sort_open results)) s
            end
        end
    end.

(** [main], from the construction of the store on. *)
Definition main (args : Args) (clock : nat -> datetime) : M (Z * Output) :=
  Tasks.__init__ ;;
  match arg_add args with
  | Some raw_title => main_add raw_title args clock
  | None =>
  match arg_delete args with
  | Some i =>
      ok <- Tasks.delete i ;;
      ret (if ok : bool then (0, Deleted_task i) else (1, Task_not_found))
  | None =>
  match arg_done args with
  | Some i =>
      ok <- Tasks.done i (clock 0%nat) ;;
      ret (if ok : bool then (0, Completed_task i) else (1, Task_not_found))
  | None =>
  if arg_list args then
    fun s =>
      match Tasks.list false s with
      | [] => Returned (0, No_tasks) s
      | open_items => Returned (0, Open_table (_sort_open open_items)) s
      end
  else if arg_report args then
    fun s =>
      match Tasks.list true s with
      | [] => Returned (0, No_tasks) s
      | all_items => Returned (0, Report_table (_sort_open all_items)) s
      end
  else
  match arg_query args with
  | Some texts => main_query texts args clock
  | None =>
  if arg_reset args then
    Tasks.reset ;;
    ret (0, All_deleted)
  else ret (0, Nothing)
  end end end end.

(** One run of the program on a disk: a new interpreter, [main], the exit
    status, and the hook of [atexit].  An exception that leaves [main]
    ends the run with status 1. *)
Definition invocation (args : Args) (clock : nat -> datetime) (d : Disk)
  : Z * Output * Disk :=
  match main args clock (mkState [] 1 d) with
  | Returned (status, out) s => (status, out, Tasks.at_exit s)
  | Raised e s => (1, Traceback e, Tasks.at_exit s)
  end.

(* ================================================================== *)
(** * Sequences of store calls *)

(** The mutating calls a client makes on one store of one process. *)
Inductive Call : Type :=
| CallAdd (nm : string) (prio : Z) (due : option datetime) (now : datetime)
| CallDelete (task_id : Z)
| CallDone (task_id : Z) (now : datetime).

(** What the client observes: the id of the task an [add] returned, the id
    a [delete] reported as removed, or nothing of interest (a call that
    raised, a [delete] that found nothing, a [done]). *)
Inductive Event : Type :=
| Assigned (task_id : Z)
| Deleted (task_id : Z)
| Silent.

Definition step (c : Call) (s : State) : Event * State :=
  match c with
  | CallAdd nm prio due now =>
      match Tasks.add nm prio due now s with
      | Returned t s' => (Assigned (unique_id t), s')
      | Raised _ s' => (Silent, s')
      end
  | CallDelete i =>
      match Tasks.delete i s with
      | Returned true s' => (Deleted i, s')
      | Returned false s' => (Silent, s')
      | Raised _ s' => (Silent, s')
      end
  | CallDone i now => (Silent, final (Tasks.done i now s))
  end.

(** The client carries on after a call that raised. *)
Fixpoint run (cs : list Call) (s : State) : list Event * State :=
  match cs with
  | [] => ([], s)
  | c :: cs' =>
      let '(e, s1) := step c s in
      let '(es, s2) := run cs' s1 in
      (e :: es, s2)
  end.

Fixpoint assigned (es : list Event) : list Z :=
  match es with
  | [] => []
  | Assigned i :: r => i :: assigned r
  | _ :: r => assigned r
  end.

(** Whether a call returned normally, and the state it left. *)
Definition completes {A} (o : Outcome A) : bool :=
  match o with Returned _ _ => true | Raised _ _ => false end.

Definition invoke (c : Call) (s : State) : bool * State :=
  match c with
  | CallAdd nm prio due now =>
      let o := Tasks.add nm prio due now s in (completes o, final o)
  | CallDelete i =>
      let o := Tasks.delete i s in (completes o, final o)
  | CallDone i now =>
      let o := Tasks.done i now s in (completes o, final o)
  end.

(** The data file holds exactly what the store holds in memory. *)
Definition persisted (s : State) : Prop :=
  file (disk s) = Pickled (tasks s) (Tasks.last_id_of (tasks s)).

(** Every id held by the store lies below the counter. *)
Definition ids_below_counter (s : State) : Prop :=
  Forall (fun t => unique_id t < _id_counter s) (tasks s).

(* ================================================================== *)
(** * The vocabulary of the specification *)

(** Chronological order on datetimes. *)
Definition dt_lt (a b : datetime) : Prop :=
  DT.ordinal a < DT.ordinal b
  \/ (DT.ordinal a = DT.ordinal b /\ DT.micros a < DT.micros b).

Definition dt_le (a b : datetime) : Prop := dt_lt a b \/ a = b.

(** (priority ascending, created ascending) *)
Definition prio_created_le (t u : Task) : Prop :=
  priority t < priority u
  \/ (priority t = priority u /\ dt_le (created t) (created u)).

(** (due_date ascending, priority ascending, created ascending), between
    two tasks that have a due date. *)
Definition due_prio_created_le (t u : Task) : Prop :=
  exists d e, due_date t = Some d /\ due_date u = Some e
              /\ (dt_lt d e \/ (d = e /\ prio_created_le t u)).

(** The filters of [query] in the words of the specification.  A text
    filter is provided when the list of substrings is there and not empty;
    a priority filter when the value is 1, 2 or 3. *)
Module Spec.

Definition text_ok (texts : option (list string)) (t : Task) : bool :=
  match texts with
  | None | Some [] => true
  | Some l =>
      existsb (fun x => Str.contains (Str.lower x) (Str.lower (name t))) l
  end.

Definition priority_ok (prio : option Z) (t : Task) : bool :=
  match prio with
  | None => true
  | Some p => if (p =? 1) || (p =? 2) || (p =? 3) then priority t =? p
              else true
  end.

Definition due_before_ok (bound : option datetime) (t : Task) : bool :=
  match bound, due_date t with
  | None, _ => true
  | Some _, None => false
  | Some b, Some d => DT.leb d b
  end.

Definition due_after_ok (bound : option datetime) (t : Task) : bool :=
  match bound, due_date t with
  | None, _ => true
  | Some _, None => false
  | Some a, Some d => DT.leb a d
  end.

Definition completed_ok (c : option bool) (t : Task) : bool :=
  match c with
  | None => true
  | Some b => Bool.eqb (Tasks.is_completed t) b
  end.

Definition satisfies (texts : option (list string)) (prio : option Z)
  (due_before due_after : option datetime) (c : option bool) (t : Task)
  : bool :=
  text_ok texts t && priority_ok prio t && due_before_ok due_before t
  && due_after_ok due_after t && completed_ok c t.

End Spec.

(** The texts [parse_due] treats by name, after [strip] and [lower]: a
    no-date token, today, tomorrow or a weekday name. *)
Definition is_keyword (raw : string) : bool :=
  let s := Str.lower (Str.strip raw) in
  Str.mem s no_date_tokens || (s =? "today")%string
  || (s =? "tomorrow")%string || Str.mem s weekdays.

(** "Either the call fully succeeds, persisting included, or the state in
    memory is as before". *)
Definition all_or_nothing (c : Call) (s : State) : Prop :=
  let '(ok, s') := invoke c s in
  (ok = true /\ persisted s')
  \/ (tasks s' = tasks s /\ _id_counter s' = _id_counter s).

(** How a call that has changed the list ends.  The list differs from the
    one before; on a writable disk the call returns and the data file holds
    the new list; on a disk that cannot be written the call raises and the
    disk is as before, while the change in memory stays. *)
Definition saved_or_raised (ok : bool) (s s' : State) : Prop :=
  tasks s' <> tasks s
  /\ ((writable (disk s) = true /\ ok = true /\ persisted s'
       /\ writable (disk s') = true)
      \/ (writable (disk s) = false /\ ok = false /\ disk s' = disk s)).

(** No task of the list has the id. *)
Definition id_absent (i : Z) (ts : list Task) : Prop :=
  ~ exists t, In t ts /\ unique_id t = i.

(** [t] is the first task of [l1 ++ t :: l2] with the id [i]. *)
Definition first_with_id (i : Z) (l1 : list Task) (t : Task) : Prop :=
  unique_id t = i /\ Forall (fun u => unique_id u <> i) l1.

(** Saving, leaving the process and loading in a new one. *)
Definition save_then_load (s : State) : State :=
  Tasks.start (disk (final (Tasks.pickle_tasks s))).

(** The id the next [add] hands out. *)
Definition next_id (s : State) : option Z :=
  match Tasks.add "next" 1 None (DT.mkDT 1 0) s with
  | Returned t _ => Some (unique_id t)
  | Raised _ _ => None
  end.

(* ================================================================== *)
(** * Invariants of the store *)

(** The list is in the order of the creation times. *)
Definition created_le (t u : Task) : Prop := dt_le (created t) (created u).

Definition sorted_by_created (ts : list Task) : Prop :=
  StronglySorted created_le ts.

Definition valid_priority (t : Task) : Prop :=
  priority t = 1 \/ priority t = 2 \/ priority t = 3.

(** [u] is [t], except perhaps for the completion time. *)
Definition same_but_completion (t u : Task) : Prop :=
  created u = created t /\ name u = name t /\ unique_id u = unique_id t
  /\ priority u = priority t /\ due_date u = due_date t.

(** The calls of a sequence that delete the id [i]. *)
Definition deletes (i : Z) (c : Call) : Prop := c = CallDelete i.

(** The number of tasks of priority [k]. *)
Definition count_priority (k : Z) (ts : list Task) : Z :=
  Z.of_nat (List.length (filter (fun t => priority t =? k) ts)).

(** The check that [DT.month_day] is right on one day number of the year
    [y]: a month, a day of that month, and that many days into the year. *)
Definition month_day_ok (y n : Z) : bool :=
  let '(m, d) := DT.month_day n (DT.is_leap y) in
  (1 <=? m) && (m <=? 12) && (1 <=? d) && (d <=? DT.days_in_month y m)
  && (DT.days_before_month y m + d =? n + 1).

(** A data file whose tasks have distinct ids, none above the stored
    [last_id]; every file [pickle_tasks] writes for a store with distinct
    ids is of this kind. *)
Definition disk_ids_ok (d : Disk) : Prop :=
  match file d with
  | Pickled l last =>
      NoDup (map unique_id l) /\ Forall (fun t => unique_id t <= last) l
  | _ => True
  end.

(** A store as a process reloads it from its own disk. *)
Definition recoverable (s : State) : Prop :=
  tasks (Tasks.start (disk s)) = tasks s.

(* ================================================================== *)
(** * Sample data *)

Module Sample.

(** Monday 2024-01-01 (day 738886), [n] microseconds after midnight. *)
Definition at_time (n : Z) : datetime := DT.mkDT 738886 n.

Definition new_disk : Disk := mkDisk NoFile true.

Definition read_only_disk : Disk := mkDisk NoFile false.

(** A process that has never stored anything. *)
Definition new_store : State := Tasks.start new_disk.

Definition read_only_store : State := Tasks.start read_only_disk.

Definition milk : Task :=
  mkTask (at_time 1) None "Buy milk" 1 2 (Some (DT.mkDT 738887 0)).

Definition rent : Task :=
  mkTask (at_time 2) (Some (at_time 9)) "Pay rent" 2 1 None.

Definition two_tasks : State :=
  mkState [milk; rent] 3 (mkDisk (Pickled [milk; rent] 2) true).

(** Two tasks are added, the second one is deleted. *)
Definition two_adds_one_delete : list Call :=
  [CallAdd "a" 1 None (at_time 1); CallAdd "b" 1 None (at_time 2);
   CallDelete 2].

Definition after_delete : State := snd (run two_adds_one_delete new_store).

(** The second task is completed once more, the first one is deleted. *)
Definition done_then_delete : list Call :=
  [CallDone 2 (at_time 8); CallDelete 1].

(** Command lines: [list], [report], [add <text>], [delete <id>],
    [done <id>], [query <texts>], [reset]. *)
Definition no_command : Args :=
  mkArgs false None None false false None None 1 None None None false.

Definition list_command : Args :=
  mkArgs false None None true false None None 1 None None None false.

Definition report_command : Args :=
  mkArgs false None None false true None None 1 None None None false.

Definition add_command (text : string) (due : option string) : Args :=
  mkArgs false (Some text) None false false None None 1 due None None false.

Definition delete_command (i : Z) : Args :=
  mkArgs false None (Some i) false false None None 1 None None None false.

Definition done_command (i : Z) : Args :=
  mkArgs false None None false false None (Some i) 1 None None None false.

Definition query_command (texts : list string) : Args :=
  mkArgs false None None false false (Some texts) None 1 None None None
         false.

Definition clock (k : nat) : datetime := at_time (Z.of_nat k).

End Sample.

(* ================================================================== *)
(** * What one call does to the state *)

Section Effects.

Variable s : State.

Lemma pickle_tasks_effect :
  Tasks.pickle_tasks s =
  if writable (disk s)
  then Returned tt
         (mkState (tasks s) (_id_counter s)
            (mkDisk (Pickled (tasks s) (Tasks.last_id_of (tasks s))) true))
  else Raised OSError s.
Proof.
  destruct s as [l c [f w]]. destruct w; reflexivity.
Qed.

Lemma add_effect nm prio due now :
  let t := mkTask now None nm (_id_counter s) (coerce_priority prio) due in
  let ts' := Tasks.by_created (tasks s ++ [t]) in
  Tasks.add nm prio due now s =
  if writable (disk s)
  then Returned t (mkState ts' (_id_counter s + 1)
                     (mkDisk (Pickled ts' (Tasks.last_id_of ts')) true))
  else Raised OSError (mkState ts' (_id_counter s + 1) (disk s)).
Proof.
  destruct s as [l c [f w]]. destruct w; reflexivity.
Qed.

Lemma delete_effect i :
  Tasks.delete i s =
  match find (Tasks.has_id i) (tasks s) with
  | None => Returned false s
  | Some _ =>
      let ts' := Tasks.remove_first i (tasks s) in
      if writable (disk s)
      then Returned true (mkState ts' (_id_counter s)
                            (mkDisk (Pickled ts' (Tasks.last_id_of ts')) true))
      else Raised OSError (mkState ts' (_id_counter s) (disk s))
  end.
Proof.
  destruct s as [l c [f w]].
  unfold Tasks.delete, bind, get_tasks. simpl.
  destruct (find (Tasks.has_id i) l); [destruct w|]; reflexivity.
Qed.

Lemma done_effect i now :
  Tasks.done i now s =
  match find (Tasks.has_id i) (tasks s) with
  | None => Returned false s
  | Some t =>
      match completed t with
      | Some _ => Returned true s
      | None =>
          let ts' := Tasks.mark_first i now (tasks s) in
          if writable (disk s)
          then Returned true (mkState ts' (_id_counter s)
                                (mkDisk (Pickled ts' (Tasks.last_id_of ts')) true))
          else Raised OSError (mkState ts' (_id_counter s) (disk s))
      end
  end.
Proof.
  destruct s as [l c [f w]].
  unfold Tasks.done, bind, get_tasks. simpl.
  destruct (find (Tasks.has_id i) l) as [t|]; [|reflexivity].
  destruct (completed t); [reflexivity|]. destruct w; reflexivity.
Qed.

End Effects.

(** Loading in a new process. *)
Lemma start_effect (d : Disk) :
  Tasks.start d =
  match file d with
  | Pickled l last => mkState (Tasks.by_created l) (Z.max 1 (last + 1)) d
  | _ => mkState [] 1 d
  end.
Proof. destruct d as [[| |l last] w]; reflexivity. Qed.

(* ================================================================== *)
(** * Datetime order *)

Lemma dt_ltb_spec a b : DT.ltb a b = true <-> dt_lt a b.
Proof. unfold DT.ltb, dt_lt. destruct a, b; simpl. lia. Qed.

Lemma dt_eqb_spec a b : DT.eqb a b = true <-> a = b.
Proof.
  unfold DT.eqb. destruct a as [o1 m1], b as [o2 m2]; simpl. split.
  - intros H. apply andb_true_iff in H as [H1 H2].
    apply Z.eqb_eq in H1, H2. congruence.
  - intros H. injection H as -> ->. now rewrite !Z.eqb_refl.
Qed.

Lemma dt_leb_spec a b : DT.leb a b = true <-> dt_le a b.
Proof.
  unfold DT.leb, dt_le, dt_lt. destruct a as [o1 m1], b as [o2 m2]; simpl.
  split.
  - intros H.
    destruct (Z.eq_dec o1 o2) as [->|]; [|left; lia].
    destruct (Z.eq_dec m1 m2) as [->|]; [now right | left; lia].
  - intros [H | H]; [lia | injection H as -> ->; lia].
Qed.

Lemma dt_le_refl a : dt_le a a.
Proof. now right. Qed.

Lemma dt_lt_trans a b c : dt_lt a b -> dt_lt b c -> dt_lt a c.
Proof. unfold dt_lt. lia. Qed.

Lemma dt_le_trans a b c : dt_le a b -> dt_le b c -> dt_le a c.
Proof.
  intros [H1 | ->] [H2 | ->]; try (now left); try (now right).
  left. eapply dt_lt_trans; eassumption.
Qed.

Lemma dt_not_lt_le a b : DT.ltb b a = false -> dt_le a b.
Proof.
  intros H. apply dt_leb_spec. revert H. unfold DT.ltb, DT.leb.
  destruct a, b; simpl. lia.
Qed.

Lemma dt_lt_le a b : dt_lt a b -> dt_le a b.
Proof. now left. Qed.

(* ================================================================== *)
(** * The stable sort: a sorted permutation *)

Section SortFacts.

Context {A K : Type}.
Variable ltb : K -> K -> bool.
Variable key : A -> K.

Lemma insert_by_perm x l : Permutation (x :: l) (insert_by ltb key x l).
Proof.
  induction l as [|y r IH]; simpl; [reflexivity|].
  destruct (ltb (key y) (key x)); [|reflexivity].
  rewrite perm_swap. now constructor.
Qed.

Lemma sort_by_perm l : Permutation l (sort_by ltb key l).
Proof.
  induction l as [|x r IH]; simpl; [constructor|].
  rewrite <- insert_by_perm. now constructor.
Qed.

Lemma sort_by_length l :
  List.length (sort_by ltb key l) = List.length l.
Proof. symmetry. apply Permutation_length, sort_by_perm. Qed.

(** Sortedness is stated for an order [le] that agrees with the key
    comparison on the items of the list (those satisfying [P]). *)
Variable P : A -> Prop.
Variable le : A -> A -> Prop.
Hypothesis le_trans : forall x y z, le x y -> le y z -> le x z.
Hypothesis not_lt_le :
  forall x y, P x -> P y -> ltb (key y) (key x) = false -> le x y.
Hypothesis lt_le :
  forall x y, P x -> P y -> ltb (key y) (key x) = true -> le y x.

Lemma insert_by_sorted x l :
  P x -> Forall P l -> StronglySorted le l ->
  StronglySorted le (insert_by ltb key x l).
Proof.
  intros Px Pl Hs. induction Hs as [|y r Hr IH Hy]; simpl.
  - repeat constructor.
  - inversion Pl as [|? ? Py Pr]; subst.
    destruct (ltb (key y) (key x)) eqn:E.
    + constructor; [now apply IH|].
      eapply Permutation_Forall; [apply insert_by_perm|].
      constructor; [now apply lt_le | assumption].
    + assert (Hxy : le x y) by now apply not_lt_le.
      constructor; [now constructor|].
      constructor; [assumption|].
      eapply Forall_impl; [|exact Hy]. intros z Hz.
      eapply le_trans; eassumption.
Qed.

Lemma sort_by_sorted l :
  Forall P l -> StronglySorted le (sort_by ltb key l).
Proof.
  induction l as [|x r IH]; intros Hl; simpl; [constructor|].
  inversion Hl; subst. apply insert_by_sorted; auto.
  eapply Permutation_Forall; [apply sort_by_perm | assumption].
Qed.

(** A list already in order is left as it is. *)
Lemma sort_by_sorted_id l :
  StronglySorted (fun x y => ltb (key y) (key x) = false) l ->
  sort_by ltb key l = l.
Proof.
  induction 1 as [|x r Hr IH Hx]; simpl; [reflexivity|].
  rewrite IH. destruct r as [|y r']; [reflexivity|]. simpl.
  inversion Hx as [|? ? Hxy _]; subst. now rewrite Hxy.
Qed.

End SortFacts.

(* ================================================================== *)
(** * [_sort_open]: the display order *)

Lemma prio_created_le_trans t u v :
  prio_created_le t u -> prio_created_le u v -> prio_created_le t v.
Proof.
  unfold prio_created_le.
  intros [H1 | [E1 L1]] [H2 | [E2 L2]]; try (left; lia).
  right. split; [lia|]. eapply dt_le_trans; eassumption.
Qed.

Lemma prio_created_not_lt t u :
  prio_created_ltb (key_without_due u) (key_without_due t) = false ->
  prio_created_le t u.
Proof.
  unfold prio_created_ltb, key_without_due, prio_created_le.
  destruct (Z.eqb_spec (priority u) (priority t)) as [E | N]; intros H.
  - right. split; [lia|]. now apply dt_not_lt_le.
  - left. apply Z.ltb_ge in H. lia.
Qed.

Lemma prio_created_lt t u :
  prio_created_ltb (key_without_due u) (key_without_due t) = true ->
  prio_created_le u t.
Proof.
  unfold prio_created_ltb, key_without_due, prio_created_le.
  destruct (Z.eqb_spec (priority u) (priority t)) as [E | N]; intros H.
  - right. split; [lia|]. now apply dt_lt_le, dt_ltb_spec.
  - left. now apply Z.ltb_lt.
Qed.

Lemma due_prio_created_le_trans t u v :
  due_prio_created_le t u -> due_prio_created_le u v ->
  due_prio_created_le t v.
Proof.
  intros (d & e & Hd & He & H1) (e' & f & He' & Hf & H2).
  rewrite He in He'. injection He' as <-.
  exists d, f. repeat split; try assumption.
  destruct H1 as [H1 | [-> H1]], H2 as [H2 | [-> H2]].
  - left. eapply dt_lt_trans; eassumption.
  - now left.
  - now left.
  - right. split; [reflexivity|]. eapply prio_created_le_trans; eassumption.
Qed.

Lemma has_due_some t : has_due t = true -> exists d, due_date t = Some d.
Proof. unfold has_due. destruct (due_date t); [eauto | discriminate]. Qed.

Lemma due_prio_created_not_lt t u :
  has_due t = true -> has_due u = true ->
  due_prio_created_ltb (key_with_due u) (key_with_due t) = false ->
  due_prio_created_le t u.
Proof.
  intros [d Hd]%has_due_some [e He]%has_due_some.
  unfold due_prio_created_ltb, key_with_due. rewrite Hd, He. intros H.
  exists d, e. repeat split; try assumption.
  destruct (DT.eqb e d) eqn:E.
  - apply dt_eqb_spec in E. subst e. right. split; [reflexivity|].
    now apply prio_created_not_lt.
  - left. apply dt_not_lt_le in H. destruct H as [H | ->]; [assumption|].
    exfalso. assert (X : DT.eqb e e = true) by now apply dt_eqb_spec.
    congruence.
Qed.

Lemma due_prio_created_lt t u :
  has_due t = true -> has_due u = true ->
  due_prio_created_ltb (key_with_due u) (key_with_due t) = true ->
  due_prio_created_le u t.
Proof.
  intros [d Hd]%has_due_some [e He]%has_due_some.
  unfold due_prio_created_ltb, key_with_due. rewrite Hd, He. intros H.
  exists e, d. repeat split; try assumption.
  destruct (DT.eqb e d) eqn:E.
  - apply dt_eqb_spec in E. subst e. right. split; [reflexivity|].
    now apply prio_created_lt.
  - left. now apply dt_ltb_spec.
Qed.

Lemma Forall_filter_true {A} (f : A -> bool) (l : list A) :
  Forall (fun x => f x = true) (filter f l).
Proof. apply Forall_forall. intros x Hx. now apply filter_In in Hx. Qed.

(** C9. [_sort_open] splits its argument into the tasks that have a due
    date and those that have none; what it returns is the first group in
    the order (due date, priority, creation time) followed by the second
    group in the order (priority, creation time), each group being a
    rearrangement of the matching tasks of the argument.  The function reads
    the list it is given and builds new ones: the state of the store does
    not occur in it. *)
Theorem sort_open_spec (ts : list Task) :
  exists with_due without_due,
    _sort_open ts = with_due ++ without_due
    /\ Permutation (filter has_due ts) with_due
    /\ Permutation (filter (fun t => negb (has_due t)) ts) without_due
    /\ StronglySorted due_prio_created_le with_due
    /\ StronglySorted prio_created_le without_due
    /\ Permutation ts (_sort_open ts).
Proof.
  exists (sort_by due_prio_created_ltb key_with_due (filter has_due ts)),
    (sort_by prio_created_ltb key_without_due
       (filter (fun t => negb (has_due t)) ts)).
  split; [reflexivity|].
  split; [apply sort_by_perm|].
  split; [apply sort_by_perm|].
  split; [|split].
  - apply sort_by_sorted with (P := fun t => has_due t = true).
    + exact due_prio_created_le_trans.
    + exact due_prio_created_not_lt.
    + exact due_prio_created_lt.
    + apply Forall_filter_true.
  - apply sort_by_sorted with (P := fun _ => True).
    + exact prio_created_le_trans.
    + intros x y _ _. apply prio_created_not_lt.
    + intros x y _ _. apply prio_created_lt.
    + apply Forall_forall. trivial.
  - unfold _sort_open. rewrite <- !sort_by_perm.
    induction ts as [|t r IH]; simpl; [constructor|].
    destruct (has_due t); simpl.
    + now constructor.
    + rewrite <- Permutation_middle. now constructor.
Qed.

(* ================================================================== *)
(** * [query]: the conjunction of the filters *)

Lemma filter_and {A} (f g : A -> bool) (l : list A) :
  filter g (filter f l) = filter (fun x => f x && g x) l.
Proof.
  induction l as [|x r IH]; simpl; [reflexivity|].
  destruct (f x); simpl; [destruct (g x)|]; now rewrite IH.
Qed.

Lemma filter_all {A} (f : A -> bool) (l : list A) :
  (forall x, f x = true) -> filter f l = l.
Proof.
  intros H. induction l as [|x r IH]; simpl; [reflexivity|].
  now rewrite H, IH.
Qed.

Lemma filter_all_in {A} (f : A -> bool) (l : list A) :
  (forall x, In x l -> f x = true) -> filter f l = l.
Proof.
  induction l as [|x r IH]; simpl; [reflexivity|]. intros H.
  rewrite (H x) by now left. rewrite IH; [reflexivity|].
  intros y Hy. apply H. now right.
Qed.

Lemma existsb_map {A B} (f : A -> B) (p : B -> bool) (l : list A) :
  existsb p (map f l) = existsb (fun x => p (f x)) l.
Proof. induction l as [|x r IH]; simpl; [reflexivity | now rewrite IH]. Qed.

Section QueryStages.

Variable results : list Task.

Lemma text_stage texts :
  match texts with
  | Some ((_ :: _) as l) =>
      filter (Tasks.text_matches (map Str.lower l)) results
  | _ => results
  end = filter (Spec.text_ok texts) results.
Proof.
  destruct texts as [[|x l]|];
    try (symmetry; now apply filter_all).
  apply filter_ext. intros t. unfold Tasks.text_matches, Spec.text_ok.
  now rewrite existsb_map.
Qed.

Lemma priority_stage prio :
  match prio with
  | Some p => if (p =? 1) || (p =? 2) || (p =? 3)
              then filter (fun t => priority t =? p) results
              else results
  | None => results
  end = filter (Spec.priority_ok prio) results.
Proof.
  destruct prio as [p|]; [|symmetry; now apply filter_all].
  unfold Spec.priority_ok.
  destruct ((p =? 1) || (p =? 2) || (p =? 3));
    [reflexivity | symmetry; now apply filter_all].
Qed.

Lemma due_before_stage b :
  match b with
  | Some x => filter (Tasks.due_le x) results
  | None => results
  end = filter (Spec.due_before_ok b) results.
Proof.
  destruct b as [x|]; [|symmetry; now apply filter_all].
  apply filter_ext. intros t. unfold Tasks.due_le, Spec.due_before_ok.
  reflexivity.
Qed.

Lemma due_after_stage a :
  match a with
  | Some x => filter (Tasks.due_ge x) results
  | None => results
  end = filter (Spec.due_after_ok a) results.
Proof.
  destruct a as [x|]; [|symmetry; now apply filter_all].
  apply filter_ext. intros t. unfold Tasks.due_ge, Spec.due_after_ok.
  reflexivity.
Qed.

Lemma completed_stage c :
  match c with
  | Some b => filter (fun t => Bool.eqb (Tasks.is_completed t) b) results
  | None => results
  end = filter (Spec.completed_ok c) results.
Proof.
  destruct c as [b|]; [reflexivity | symmetry; now apply filter_all].
Qed.

End QueryStages.

Lemma query_filter texts prio b a c s :
  Tasks.query texts prio b a c s
  = filter (Spec.satisfies texts prio b a c) (tasks s).
Proof.
  unfold Tasks.query. cbv zeta.
  rewrite completed_stage, due_after_stage, due_before_stage,
    priority_stage, text_stage.
  rewrite !filter_and. apply filter_ext. intros t.
  unfold Spec.satisfies. now rewrite !andb_assoc.
Qed.

(** C6. [query] returns, in the order of the store, exactly the tasks that
    pass every filter provided: some substring of [texts] occurs in the
    name, both taken in lower case; the priority is the one asked for, when
    that is 1, 2 or 3, and any other value filters nothing; the due date is
    there and not after [due_before], there and not before [due_after]; the
    task is completed or not as [completed] says.  A parameter left out
    (and an empty list of texts) filters nothing, and a bound on the due
    date leaves out every task without one. *)
Theorem query_spec (texts : option (list string)) (prio : option Z)
  (due_before due_after : option datetime) (c : option bool) (s : State) :
  Tasks.query texts prio due_before due_after c s
  = filter (Spec.satisfies texts prio due_before due_after c) (tasks s)
  /\ (forall t,
        In t (Tasks.query texts prio due_before due_after c s) <->
        In t (tasks s)
        /\ Spec.text_ok texts t = true
        /\ Spec.priority_ok prio t = true
        /\ Spec.due_before_ok due_before t = true
        /\ Spec.due_after_ok due_after t = true
        /\ Spec.completed_ok c t = true)
  /\ (forall t, due_date t = None ->
        due_before <> None \/ due_after <> None ->
        ~ In t (Tasks.query texts prio due_before due_after c s))
  /\ (forall p, p <> 1 -> p <> 2 -> p <> 3 ->
        Tasks.query texts (Some p) due_before due_after c s
        = Tasks.query texts None due_before due_after c s)
  /\ Tasks.query None None None None None s = tasks s.
Proof.
  split; [apply query_filter|].
  split; [|split; [|split]].
  - intros t. rewrite query_filter, filter_In. unfold Spec.satisfies.
    rewrite !andb_true_iff. tauto.
  - intros t Hd Hb. rewrite query_filter, filter_In.
    unfold Spec.satisfies, Spec.due_before_ok, Spec.due_after_ok.
    rewrite Hd. intros [_ H]. rewrite !andb_true_iff in H.
    destruct due_before, due_after; try tauto; try (now destruct Hb);
      intuition discriminate.
  - intros p H1 H2 H3. rewrite !query_filter. apply filter_ext.
    intros t. unfold Spec.satisfies, Spec.priority_ok.
    apply Z.eqb_neq in H1, H2, H3. now rewrite H1, H2, H3.
  - reflexivity.
Qed.

(** C10. The bounds on the due date are inclusive.  For a task [t] of the
    store whose due date is [due]: [query(due_before=d)] returns [t] exactly
    when [due <= d], [query(due_after=d)] exactly when [due >= d], so a task
    due exactly at [d] is returned by both; next to other filters, each
    bound adds just that condition. *)
Theorem query_due_bounds_inclusive (s : State) (t : Task) (due d : datetime) :
  In t (tasks s) ->
  due_date t = Some due ->
  (In t (Tasks.query None None (Some d) None None s) <-> dt_le due d)
  /\ (In t (Tasks.query None None None (Some d) None s) <-> dt_le d due)
  /\ (due = d ->
      In t (Tasks.query None None (Some d) None None s)
      /\ In t (Tasks.query None None None (Some d) None s))
  /\ (forall texts prio a c,
        In t (Tasks.query texts prio (Some d) a c s) <->
        In t (Tasks.query texts prio None a c s) /\ dt_le due d)
  /\ (forall texts prio b c,
        In t (Tasks.query texts prio b (Some d) c s) <->
        In t (Tasks.query texts prio b None c s) /\ dt_le d due).
Proof.
  intros Hin Hdue.
  assert (Hb : forall texts prio a c,
             In t (Tasks.query texts prio (Some d) a c s) <->
             In t (Tasks.query texts prio None a c s) /\ dt_le due d).
  { intros. rewrite !query_filter, !filter_In. unfold Spec.satisfies.
    rewrite !andb_true_iff. unfold Spec.due_before_ok at 1 2.
    rewrite Hdue, dt_leb_spec. tauto. }
  assert (Ha : forall texts prio b c,
             In t (Tasks.query texts prio b (Some d) c s) <->
             In t (Tasks.query texts prio b None c s) /\ dt_le d due).
  { intros. rewrite !query_filter, !filter_In. unfold Spec.satisfies.
    rewrite !andb_true_iff. unfold Spec.due_after_ok at 1 2.
    rewrite Hdue, dt_leb_spec. tauto. }
  assert (H0 : In t (Tasks.query None None None None None s)) by exact Hin.
  split; [|split; [|split; [|split]]].
  - rewrite (Hb None None None None). tauto.
  - rewrite (Ha None None None None). tauto.
  - intros ->. split; [apply Hb | apply Ha];
      (split; [exact H0 | apply dt_le_refl]).
  - exact Hb.
  - exact Ha.
Qed.

Lemma query_due_bounds_inclusive_witness :
  In Sample.milk
     (Tasks.query None None (Some (DT.mkDT 738887 0)) None None
        Sample.two_tasks)
  /\ In Sample.milk
       (Tasks.query None None None (Some (DT.mkDT 738887 0)) None
          Sample.two_tasks).
Proof.
  apply (query_due_bounds_inclusive Sample.two_tasks Sample.milk
           (DT.mkDT 738887 0) (DT.mkDT 738887 0)).
  - simpl. left. reflexivity.
  - reflexivity.
  - reflexivity.
Defined.


(* ================================================================== *)
(** * [parse_due] *)

Lemma lower_strip_nonempty raw :
  Str.lower (Str.strip raw) <> "" -> raw <> "".
Proof. intros H ->. now apply H. Qed.

(** The branch taken for a weekday name. *)
Lemma parse_due_weekday now raw k :
  nth_error weekdays k = Some (Str.lower (Str.strip raw)) ->
  parse_due now (Some raw) =
  let delta := (Z.of_nat k - DT.weekday now) mod 7 in
  Ok (Some (DT.end_of_day
              (DT.add_days now (if delta =? 0 then 7 else delta)))).
Proof.
  intros H.
  assert (Hne : raw <> "").
  { apply lower_strip_nonempty. intros E. rewrite E in H.
    do 7 (destruct k as [|k]; [discriminate|]). now destruct k. }
  destruct raw as [|a r]; [congruence|].
  cbv beta iota delta [parse_due].
  remember (Str.lower (Str.strip (String a r))) as s eqn:Hs. clear Hs Hne.
  do 7 (destruct k as [|k];
        [injection H as <-; reflexivity|]).
  now destruct k.
Qed.

(** C7. A weekday name, in any letter case and with blanks around it,
    gives 23:59:59 of the next day that falls on that weekday and lies
    strictly after today: at most seven days ahead, no day in between falls
    on that weekday, and when today is that weekday the result is exactly
    seven days ahead.  [k] numbers the names from monday = 0, as
    [datetime.weekday] numbers the days. *)
Theorem parse_due_weekday_next (now : datetime) (raw : string) (k : nat) :
  nth_error weekdays k = Some (Str.lower (Str.strip raw)) ->
  exists d,
    parse_due now (Some raw) = Ok (Some d)
    /\ DT.micros d = DT.end_of_day_micros
    /\ DT.weekday d = Z.of_nat k
    /\ DT.ordinal now < DT.ordinal d <= DT.ordinal now + 7
    /\ (forall day, DT.ordinal now < day < DT.ordinal d ->
          DT.weekday (DT.mkDT day 0) <> Z.of_nat k)
    /\ (DT.weekday now = Z.of_nat k -> DT.ordinal d = DT.ordinal now + 7).
Proof.
  intros H. rewrite (parse_due_weekday now raw k H). cbv zeta.
  assert (Hk : (k < 7)%nat).
  { change 7%nat with (List.length weekdays). apply nth_error_Some.
    rewrite H. discriminate. }
  clear H. eexists. split; [reflexivity|].
  unfold DT.end_of_day, DT.add_days, DT.weekday. simpl DT.ordinal.
  simpl DT.micros.
  destruct now as [o m]. simpl DT.ordinal.
  destruct (Z.eqb_spec ((Z.of_nat k - (o + 6) mod 7) mod 7) 0) as [E | E];
    (split; [reflexivity|]);
    (split; [|split; [|split]]);
    try intros day Hd; try intros Hw;
    Z.div_mod_to_equations; lia.
Qed.

(** On Monday 2024-01-01, " MoNdAy " is Monday 2024-01-08. *)
Lemma parse_due_weekday_next_witness :
  exists d,
    parse_due (Sample.at_time 5) (Some " MoNdAy ") = Ok (Some d)
    /\ DT.ordinal d = 738893
    /\ DT.micros d = DT.end_of_day_micros.
Proof.
  destruct (parse_due_weekday_next (Sample.at_time 5) " MoNdAy " 0 eq_refl)
    as (d & Hp & Hm & _ & _ & _ & Hsame).
  exists d. split; [exact Hp|]. split; [|exact Hm].
  apply Hsame. reflexivity.
Defined.


Lemma index_none_mem x l : Str.index x l = None <-> Str.mem x l = false.
Proof.
  unfold Str.mem. induction l as [|y r IH]; simpl; [tauto|].
  rewrite (String.eqb_sym x y). destruct (String.eqb y x); simpl.
  - split; discriminate.
  - rewrite <- IH. destruct (Str.index x r); simpl; split; congruence.
Qed.

Lemma strptime_midnight raw fmt d :
  DT.strptime raw fmt = Some d -> DT.micros d = 0.
Proof.
  unfold DT.strptime, DT.of_ymd.
  destruct (DT.matches fmt DT.no_fields raw) as [|[f r] _]; [discriminate|].
  destruct (Str.is_empty r); [|discriminate].
  match goal with |- context [if ?c then _ else _] => destruct c end;
    [|discriminate].
  now intros [= <-].
Qed.

Lemma try_formats_fmts raw :
  try_formats raw fmts =
  match DT.strptime raw fmt_mdY with
  | Some d => Ok (Some d)
  | None =>
      match DT.strptime raw fmt_mdy with
      | Some d => Ok (Some d)
      | None =>
          match DT.strptime raw fmt_Ymd with
          | Some d => Ok (Some d)
          | None => Err (ValueError raw)
          end
      end
  end.
Proof. reflexivity. Qed.

(** [parse_due] reaches the formats exactly on the texts that are neither
    empty nor a keyword. *)
Lemma parse_due_cases now raw :
  parse_due now (Some raw) =
  if Str.is_empty raw then Ok None
  else if is_keyword raw
       then match parse_due now (Some raw) with
            | Ok r => Ok r
            | Err _ => Ok None
            end
       else try_formats raw fmts.
Proof.
  destruct raw as [|a r]; [reflexivity|].
  cbv beta iota zeta delta [parse_due is_keyword Str.is_empty].
  remember (Str.lower (Str.strip (String a r))) as s eqn:Hs. clear Hs.
  destruct (Str.mem s no_date_tokens); [reflexivity|].
  destruct (s =? "today")%string; [reflexivity|].
  destruct (s =? "tomorrow")%string; [reflexivity|].
  cbn [orb].
  destruct (Str.index s weekdays) as [k|] eqn:E.
  - destruct (Str.mem s weekdays) eqn:M; [reflexivity|].
    apply index_none_mem in M. congruence.
  - apply index_none_mem in E. now rewrite E.
Qed.

Lemma keyword_never_fails now raw e :
  is_keyword raw = true -> parse_due now (Some raw) <> Err e.
Proof.
  intros K H. rewrite parse_due_cases, K in H.
  destruct (Str.is_empty raw); [discriminate|].
  destruct (parse_due now (Some raw)); discriminate.
Qed.

(** C8. On a text that is not empty and not a keyword (a no-date token,
    today, tomorrow, a weekday name), [parse_due] tries ["%m/%d/%Y"], then
    ["%m/%d/%y"], then ["%Y-%m-%d"] on the text as given, and returns the
    first date obtained; that date is at midnight.  When the three formats
    are all rejected it raises the error that carries the text.  Nothing
    else makes [parse_due] raise: an error is always that one, on such a
    text, with the three formats rejected. *)
Theorem parse_due_absolute (now : datetime) (raw : string) :
  raw <> "" ->
  is_keyword raw = false ->
  (forall d, DT.strptime raw fmt_mdY = Some d ->
     parse_due now (Some raw) = Ok (Some d))
  /\ (DT.strptime raw fmt_mdY = None ->
      forall d, DT.strptime raw fmt_mdy = Some d ->
        parse_due now (Some raw) = Ok (Some d))
  /\ (DT.strptime raw fmt_mdY = None ->
      DT.strptime raw fmt_mdy = None ->
      forall d, DT.strptime raw fmt_Ymd = Some d ->
        parse_due now (Some raw) = Ok (Some d))
  /\ (DT.strptime raw fmt_mdY = None ->
      DT.strptime raw fmt_mdy = None ->
      DT.strptime raw fmt_Ymd = None ->
      parse_due now (Some raw) = Err (ValueError raw))
  /\ (forall r, parse_due now (Some raw) = Ok r ->
      exists d, r = Some d /\ DT.micros d = 0)
  /\ (forall now' raw' e, parse_due now' raw' = Err e ->
      exists r, raw' = Some r /\ e = ValueError r
                /\ r <> "" /\ is_keyword r = false
                /\ DT.strptime r fmt_mdY = None
                /\ DT.strptime r fmt_mdy = None
                /\ DT.strptime r fmt_Ymd = None).
Proof.
  intros Hne Hk.
  assert (Hp : parse_due now (Some raw) = try_formats raw fmts).
  { rewrite parse_due_cases, Hk. destruct raw; [congruence | reflexivity]. }
  rewrite Hp, try_formats_fmts.
  split; [|split; [|split; [|split; [|split]]]].
  - intros d ->. reflexivity.
  - intros -> d ->. reflexivity.
  - intros -> -> d ->. reflexivity.
  - intros -> -> ->. reflexivity.
  - intros r.
    destruct (DT.strptime raw fmt_mdY) as [d|] eqn:E1;
      [|destruct (DT.strptime raw fmt_mdy) as [d|] eqn:E2;
        [|destruct (DT.strptime raw fmt_Ymd) as [d|] eqn:E3]];
      intros [= <-] || discriminate; exists d;
      (split; [reflexivity | eapply strptime_midnight; eassumption]).
  - clear. intros now raw e H.
    destruct raw as [r|]; [|discriminate]. exists r.
    destruct (is_keyword r) eqn:K.
    { exfalso. eapply keyword_never_fails; eassumption. }
    rewrite parse_due_cases, K in H.
    destruct r as [|a r]; [discriminate|]. cbn [Str.is_empty] in H.
    rewrite try_formats_fmts in H.
    destruct (DT.strptime (String a r) fmt_mdY); [discriminate|].
    destruct (DT.strptime (String a r) fmt_mdy); [discriminate|].
    destruct (DT.strptime (String a r) fmt_Ymd); [discriminate|].
    injection H as <-. repeat split; congruence.
Qed.

Lemma parse_due_absolute_witness :
  parse_due (Sample.at_time 5) (Some "01/02/24")
  = Ok (Some (DT.mkDT 738887 0)).
Proof.
  assert (Hne : "01/02/24" <> "") by discriminate.
  destruct (parse_due_absolute (Sample.at_time 5) "01/02/24" Hne eq_refl)
    as (_ & H2 & _).
  apply H2; reflexivity.
Defined.

(** Some texts and what the three formats make of them. *)
Example parse_due_slash_year :
  parse_due (Sample.at_time 5) (Some "1/2/2024")
  = Ok (Some (DT.mkDT 738887 0)).
Proof. reflexivity. Qed.

Example parse_due_iso :
  parse_due (Sample.at_time 5) (Some "2024-02-29")
  = Ok (Some (DT.mkDT 738945 0)).
Proof. reflexivity. Qed.

Example parse_due_impossible_day :
  parse_due (Sample.at_time 5) (Some "02/30/2024")
  = Err (ValueError "02/30/2024").
Proof. reflexivity. Qed.

Example parse_due_blank :
  parse_due (Sample.at_time 5) (Some "   ") = Err (ValueError "   ").
Proof. reflexivity. Qed.

Example parse_due_no_date :
  parse_due (Sample.at_time 5) (Some " N/A ") = Ok None.
Proof. reflexivity. Qed.


(* ================================================================== *)
(** * Identifiers over a sequence of calls *)

Lemma remove_first_incl i ts t :
  In t (Tasks.remove_first i ts) -> In t ts.
Proof.
  induction ts as [|u r IH]; simpl; [tauto|].
  destruct (Tasks.has_id i u); simpl; intuition.
Qed.

Lemma mark_first_ids i now ts :
  map unique_id (Tasks.mark_first i now ts) = map unique_id ts.
Proof.
  induction ts as [|u r IH]; simpl; [reflexivity|].
  destruct (Tasks.has_id i u); simpl; [reflexivity | now rewrite IH].
Qed.

Lemma find_has_id i ts t :
  find (Tasks.has_id i) ts = Some t -> In t ts /\ unique_id t = i.
Proof.
  intros H. apply find_some in H as [H1 H2]. split; [assumption|].
  now apply Z.eqb_eq.
Qed.

Lemma ids_below_map n ts :
  Forall (fun t => unique_id t < n) ts <->
  Forall (fun i => i < n) (map unique_id ts).
Proof. now rewrite Forall_map. Qed.

(** One call: the counter never goes down, the store stays below it, an
    id handed out is the old counter, an id removed was in the store. *)
Lemma step_ids c s :
  ids_below_counter s ->
  let '(e, s') := step c s in
  _id_counter s <= _id_counter s'
  /\ ids_below_counter s'
  /\ (forall i, e = Assigned i -> i = _id_counter s /\ _id_counter s' = i + 1)
  /\ (forall i, e = Deleted i -> i < _id_counter s).
Proof.
  unfold ids_below_counter. intros Hs. destruct c as [nm p due now|i|i now].
  - unfold step. rewrite add_effect.
    assert (Hnew : forall w,
      Forall (fun t => unique_id t < _id_counter s + 1)
        (Tasks.by_created
           (tasks s ++ [mkTask now None nm (_id_counter s) w due]))).
    { intros w. eapply Permutation_Forall; [apply sort_by_perm|].
      apply Forall_app. split.
      - eapply Forall_impl; [|exact Hs]. simpl. intros; lia.
      - repeat constructor. simpl. lia. }
    destruct (writable (disk s)); simpl;
      (split; [lia|]); (split; [apply Hnew|]);
      (split; [|discriminate]); intros i [= <-] || discriminate.
    split; reflexivity.
  - unfold step. rewrite delete_effect.
    destruct (find (Tasks.has_id i) (tasks s)) as [t|] eqn:F.
    + apply find_has_id in F as [Hin Hid].
      assert (Hlt : i < _id_counter s).
      { rewrite Forall_forall in Hs. rewrite <- Hid. now apply Hs. }
      assert (Hrm : Forall (fun t => unique_id t < _id_counter s)
                      (Tasks.remove_first i (tasks s))).
      { rewrite Forall_forall in *. intros u Hu.
        apply Hs. eapply remove_first_incl; eassumption. }
      destruct (writable (disk s)); simpl;
        (split; [lia|]); (split; [exact Hrm|]);
        (split; [discriminate|]); intros j [= <-] || discriminate.
      exact Hlt.
    + simpl. repeat split; try assumption; try lia; discriminate.
  - unfold step. rewrite done_effect.
    assert (Hmk : Forall (fun t => unique_id t < _id_counter s)
                    (Tasks.mark_first i now (tasks s))).
    { apply ids_below_map. rewrite mark_first_ids.
      now apply ids_below_map. }
    destruct (find (Tasks.has_id i) (tasks s)) as [t|];
      [destruct (completed t); [|destruct (writable (disk s))]|];
      simpl; repeat split; try assumption; try lia; discriminate.
Qed.

Lemma run_ids cs : forall s,
  ids_below_counter s ->
  let '(es, s') := run cs s in
  Forall (fun i => _id_counter s <= i) (assigned es)
  /\ StronglySorted Z.lt (assigned es)
  /\ (forall e1 i e2, es = e1 ++ Deleted i :: e2 -> ~ In i (assigned e2)).
Proof.
  induction cs as [|c cs IH]; intros s Hs; simpl.
  - repeat split; try constructor.
    intros [|? ?] ? ? ?; discriminate.
  - pose proof (step_ids c s Hs) as Hc.
    destruct (step c s) as [e s1].
    destruct Hc as (Hle & Hs1 & Hadd & Hdel).
    specialize (IH s1 Hs1). destruct (run cs s1) as [es s2].
    destruct IH as (Hall & Hsorted & Hnever).
    assert (Hall' : Forall (fun i => _id_counter s <= i) (assigned es)).
    { eapply Forall_impl; [|exact Hall]. simpl. intros; lia. }
    split; [|split].
    + destruct e as [i|i|]; simpl; try exact Hall'.
      destruct (Hadd i eq_refl) as [-> _]. constructor; [lia | exact Hall'].
    + destruct e as [i|i|]; simpl; try exact Hsorted.
      destruct (Hadd i eq_refl) as [-> Hn]. constructor; [exact Hsorted|].
      eapply Forall_impl; [|exact Hall]. simpl. intros; lia.
    + intros [|e' e1] i e2 Heq; simpl in Heq; injection Heq as -> ->.
      * specialize (Hdel i eq_refl). intros Hin.
        rewrite Forall_forall in Hall'. specialize (Hall' i Hin). lia.
      * eapply Hnever. reflexivity.
Qed.

Lemma remove_first_nodup i ts :
  NoDup (map unique_id ts) ->
  NoDup (map unique_id (Tasks.remove_first i ts)).
Proof.
  induction ts as [|u r IH]; simpl; [trivial|].
  intros H. inversion H as [|? ? Hu Hr]; subst.
  destruct (Tasks.has_id i u); [assumption|]. simpl.
  constructor; [|now apply IH].
  intros Hin. apply Hu. apply in_map_iff in Hin as (t & Ht & Hin).
  apply in_map_iff. exists t. split; [assumption|].
  eapply remove_first_incl; eassumption.
Qed.

(** The tasks of the store keep pairwise distinct ids. *)
Lemma step_nodup c s :
  ids_below_counter s ->
  NoDup (map unique_id (tasks s)) ->
  NoDup (map unique_id (tasks (snd (step c s)))).
Proof.
  unfold ids_below_counter. intros Hs Hn.
  destruct c as [nm p due now|i|i now]; unfold step.
  - rewrite add_effect.
    assert (Hnew : forall w,
      NoDup (map unique_id
        (Tasks.by_created
           (tasks s ++ [mkTask now None nm (_id_counter s) w due])))).
    { intros w. eapply Permutation_NoDup.
      - apply Permutation_map, sort_by_perm.
      - rewrite map_app. simpl. eapply Permutation_NoDup.
        + apply Permutation_cons_append.
        + constructor; [|assumption]. intros Hin.
          apply ids_below_map in Hs. rewrite Forall_forall in Hs.
          specialize (Hs _ Hin). lia. }
    destruct (writable (disk s)); simpl; apply Hnew.
  - rewrite delete_effect.
    destruct (find (Tasks.has_id i) (tasks s));
      [destruct (writable (disk s))|]; simpl;
      try assumption; now apply remove_first_nodup.
  - rewrite done_effect.
    destruct (find (Tasks.has_id i) (tasks s)) as [t|];
      [destruct (completed t); [|destruct (writable (disk s))]|];
      simpl; try assumption; now rewrite mark_first_ids.
Qed.

Lemma run_nodup cs : forall s,
  ids_below_counter s ->
  NoDup (map unique_id (tasks s)) ->
  NoDup (map unique_id (tasks (snd (run cs s)))).
Proof.
  induction cs as [|c cs IH]; intros s Hs Hn; simpl; [assumption|].
  pose proof (step_ids c s Hs) as Hc.
  pose proof (step_nodup c s Hs Hn) as Hd.
  destruct (step c s) as [e s1]. simpl in Hd.
  destruct Hc as (_ & Hs1 & _).
  specialize (IH s1 Hs1 Hd). now destruct (run cs s1).
Qed.

Lemma sorted_lt_nodup l : StronglySorted Z.lt l -> NoDup l.
Proof.
  induction 1 as [|x r Hr IH Hx]; constructor; [|assumption].
  intros Hin. rewrite Forall_forall in Hx. specialize (Hx x Hin). lia.
Qed.

(** C4. In one process, over any sequence of [add], [delete] and [done]
    calls on a store whose ids lie below the counter (as they do after
    loading): the ids of the tasks returned by the successive [add] calls
    are strictly increasing, hence pairwise distinct; an id that a [delete]
    removed is never handed out by a later [add]; no [add] hands out an id
    that a task of the initial store carries; and the tasks of the store
    keep pairwise distinct ids, those left by an [add] whose save raised
    included. *)
Theorem add_ids_strictly_increasing (s : State) (cs : list Call) :
  ids_below_counter s ->
  let es := fst (run cs s) in
  StronglySorted Z.lt (assigned es)
  /\ NoDup (assigned es)
  /\ (forall e1 i e2, es = e1 ++ Deleted i :: e2 -> ~ In i (assigned e2))
  /\ (forall t, In t (tasks s) -> ~ In (unique_id t) (assigned es))
  /\ (NoDup (map unique_id (tasks s)) ->
      NoDup (map unique_id (tasks (snd (run cs s))))).
Proof.
  intros Hs. pose proof (run_ids cs s Hs) as H.
  pose proof (run_nodup cs s Hs) as Hd.
  destruct (run cs s) as [es s']. simpl.
  destruct H as (Hall & Hsorted & Hnever).
  split; [assumption|].
  split; [now apply sorted_lt_nodup|].
  split; [assumption|].
  split; [|exact Hd].
  intros t Hin Hid. unfold ids_below_counter in Hs.
  rewrite Forall_forall in Hs, Hall.
  specialize (Hs t Hin). specialize (Hall _ Hid). lia.
Qed.

Lemma add_ids_strictly_increasing_witness :
  StronglySorted Z.lt
    (assigned (fst (run Sample.two_adds_one_delete Sample.two_tasks))).
Proof.
  apply (add_ids_strictly_increasing Sample.two_tasks
           Sample.two_adds_one_delete).
  unfold ids_below_counter. simpl. repeat constructor.
Defined.

Lemma last_id_of_ge ts :
  Forall (fun t => unique_id t <= Tasks.last_id_of ts) ts.
Proof.
  unfold Tasks.last_id_of. induction ts as [|t r IH]; [constructor|].
  simpl. destruct (Tasks.max_id r) as [m|] eqn:E.
  - constructor; [lia|]. eapply Forall_impl; [|exact IH]. simpl. intros; lia.
  - constructor; [lia|]. destruct r as [|u r']; [constructor|].
    simpl in E. destruct (Tasks.max_id r'); discriminate.
Qed.

(** A process started on a file that [pickle_tasks] wrote, on no file or
    on an unreadable one has its ids below the counter. *)
Lemma start_ids_below_counter d :
  match file d with
  | Pickled l last => Forall (fun t => unique_id t <= last) l
  | _ => True
  end ->
  ids_below_counter (Tasks.start d).
Proof.
  rewrite start_effect. unfold ids_below_counter.
  destruct (file d) as [| |l last]; simpl; try constructor.
  intros H. eapply Permutation_Forall; [apply sort_by_perm|].
  eapply Forall_impl; [|exact H]. simpl. intros; lia.
Qed.

(* ================================================================== *)
(** * [done] *)

Lemma find_none_no_id i ts :
  find (Tasks.has_id i) ts = None <->
  ~ exists t, In t ts /\ unique_id t = i.
Proof.
  split.
  - intros H (t & Hin & Hid).
    apply (find_none _ _ H) in Hin. unfold Tasks.has_id in Hin.
    apply Z.eqb_neq in Hin. congruence.
  - intros H. destruct (find (Tasks.has_id i) ts) as [t|] eqn:F;
      [|reflexivity].
    exfalso. apply H. exists t. now apply find_has_id.
Qed.



(* ================================================================== *)
(** * [reset] *)

Lemma reset_effect s :
  Tasks.reset s =
  match file (disk s) with
  | NoFile => Returned tt (mkState [] 1 (disk s))
  | _ => if writable (disk s)
         then Returned tt (mkState [] 1 (mkDisk NoFile true))
         else Raised OSError (mkState [] 1 (disk s))
  end.
Proof.
  destruct s as [l c [[| |ts last] w]]; try reflexivity;
    destruct w; reflexivity.
Qed.



(* ================================================================== *)
(** * Persistence after each call *)

Lemma mark_first_changes i now ts t :
  find (Tasks.has_id i) ts = Some t -> completed t = None ->
  Tasks.mark_first i now ts <> ts.
Proof.
  induction ts as [|u r IH]; simpl; [discriminate|].
  destruct (Tasks.has_id i u).
  - intros [= ->] C H. injection H as H.
    apply (f_equal completed) in H. simpl in H. congruence.
  - intros F C H. injection H as H. now apply (IH F C).
Qed.

Lemma remove_first_length i ts t :
  find (Tasks.has_id i) ts = Some t ->
  S (List.length (Tasks.remove_first i ts)) = List.length ts.
Proof.
  induction ts as [|u r IH]; simpl; [discriminate|].
  destruct (Tasks.has_id i u); [reflexivity|].
  intros F. simpl. now rewrite (IH F).
Qed.

Lemma length_neq {A} (l l' : list A) :
  List.length l <> List.length l' -> l <> l'.
Proof. congruence. Qed.

Lemma find_split i ts t :
  find (Tasks.has_id i) ts = Some t ->
  exists l1 l2,
    ts = l1 ++ t :: l2 /\ first_with_id i l1 t
    /\ Tasks.remove_first i ts = l1 ++ l2
    /\ (forall now,
          Tasks.mark_first i now ts = l1 ++ mark_completed now t :: l2).
Proof.
  unfold first_with_id.
  induction ts as [|u r IH]; simpl; [discriminate|].
  destruct (Tasks.has_id i u) eqn:E.
  - intros [= ->]. exists [], r. unfold Tasks.has_id in E.
    apply Z.eqb_eq in E. repeat split; auto.
  - intros F. destruct (IH F) as (l1 & l2 & -> & [Hid Hl1] & Hrm & Hmk).
    exists (u :: l1), l2. unfold Tasks.has_id in E. apply Z.eqb_neq in E.
    repeat split; simpl; auto; try (now rewrite Hrm).
    intros now. now rewrite Hmk.
Qed.

Lemma app_cons_neq {A} (l1 l2 : list A) (x : A) : l1 ++ l2 <> l1 ++ x :: l2.
Proof.
  intros H. apply (f_equal (@List.length A)) in H.
  rewrite !length_app in H. simpl in H. lia.
Qed.

(** C2, as the code has it.  [add] always changes the list: one new task,
    with the old counter as id, joins the tasks that were there, and the
    counter moves up by one.  [delete] changes nothing when no task has the
    id, and otherwise takes out the first task with the id.  [done] changes
    nothing when no task has the id or the first task with the id is
    completed already, and otherwise gives that task the current time as
    completion time.  A call that changes nothing returns and leaves
    memory and disk as they were.  A call that changes the list does so
    first and saves afterwards: on a writable disk it returns and the file
    holds the new list; when the save raises, the call raises, the change
    made in memory (for [add] the moved counter too) stays and the disk is
    as before. *)
Theorem calls_save_after_change (c : Call) (s : State) :
  let '(ok, s') := invoke c s in
  match c with
  | CallAdd nm prio due now =>
      exists t,
        Permutation (t :: tasks s) (tasks s')
        /\ unique_id t = _id_counter s /\ name t = nm /\ created t = now
        /\ completed t = None /\ due_date t = due
        /\ _id_counter s' = _id_counter s + 1
        /\ saved_or_raised ok s s'
  | CallDelete i =>
      (id_absent i (tasks s) /\ ok = true /\ s' = s)
      \/ (exists l1 t l2,
            tasks s = l1 ++ t :: l2 /\ first_with_id i l1 t
            /\ tasks s' = l1 ++ l2
            /\ _id_counter s' = _id_counter s
            /\ saved_or_raised ok s s')
  | CallDone i now =>
      (id_absent i (tasks s) /\ ok = true /\ s' = s)
      \/ (exists l1 t l2,
            tasks s = l1 ++ t :: l2 /\ first_with_id i l1 t
            /\ ((completed t <> None /\ ok = true /\ s' = s)
                \/ (completed t = None
                    /\ exists t',
                         tasks s' = l1 ++ t' :: l2
                         /\ completed t' = Some now
                         /\ same_but_completion t t'
                         /\ _id_counter s' = _id_counter s
                         /\ saved_or_raised ok s s')))
  end.
Proof.
  unfold saved_or_raised, persisted.
  destruct c as [nm p due now|i|i now]; unfold invoke.
  - rewrite add_effect. cbv zeta.
    exists (mkTask now None nm (_id_counter s) (coerce_priority p) due).
    assert (Hp : forall t, Permutation (t :: tasks s)
                             (Tasks.by_created (tasks s ++ [t]))).
    { intros t. unfold Tasks.by_created. rewrite <- sort_by_perm.
      apply Permutation_cons_append. }
    assert (Hne : forall t, Tasks.by_created (tasks s ++ [t]) <> tasks s).
    { intros t. apply length_neq. unfold Tasks.by_created.
      rewrite sort_by_length, length_app. simpl. lia. }
    destruct (writable (disk s)); simpl;
      (split; [apply Hp|]); repeat (split; [reflexivity|]);
      (split; [apply Hne|]); [left | right]; repeat split; reflexivity.
  - rewrite delete_effect.
    destruct (find (Tasks.has_id i) (tasks s)) as [t|] eqn:F.
    + right. destruct (find_split i (tasks s) t F)
        as (l1 & l2 & Hts & Hfirst & Hrm & _).
      exists l1, t, l2. cbv zeta. rewrite Hrm.
      assert (Hne : l1 ++ l2 <> tasks s).
      { rewrite Hts. apply app_cons_neq. }
      destruct (writable (disk s)); simpl;
        (split; [exact Hts|]); (split; [exact Hfirst|]);
        repeat (split; [reflexivity|]);
        (split; [exact Hne|]); [left | right]; repeat split; reflexivity.
    + left. split; [now apply find_none_no_id | split; reflexivity].
  - rewrite done_effect.
    destruct (find (Tasks.has_id i) (tasks s)) as [t|] eqn:F.
    + right. destruct (find_split i (tasks s) t F)
        as (l1 & l2 & Hts & Hfirst & _ & Hmk).
      exists l1, t, l2. split; [exact Hts|]. split; [exact Hfirst|].
      destruct (completed t) eqn:C.
      * left. split; [discriminate | split; reflexivity].
      * right. split; [reflexivity|].
        exists (mark_completed now t). cbv zeta. rewrite (Hmk now).
        assert (Hne : l1 ++ mark_completed now t :: l2 <> tasks s).
        { rewrite Hts. intros H. apply app_inv_head in H.
          injection H as H. apply (f_equal completed) in H.
          simpl in H. congruence. }
        destruct (writable (disk s)); simpl;
          repeat (split; [reflexivity|]);
          (split; [repeat split|]); (split; [reflexivity|]);
          (split; [exact Hne|]); [left | right]; repeat split; reflexivity.
    + left. split; [now apply find_none_no_id | split; reflexivity].
Qed.

(** C2, as the specification words it, fails: on a disk that cannot be
    written, [add] raises after it has put the task in the list and moved
    the counter, and the data file is not updated. *)
Lemma add_not_all_or_nothing :
  ~ all_or_nothing (CallAdd "a" 1 None (Sample.at_time 1))
      Sample.read_only_store
  /\ invoke (CallAdd "a" 1 None (Sample.at_time 1)) Sample.read_only_store
     = (false,
        mkState [mkTask (Sample.at_time 1) None "a" 1 1 None] 2
                Sample.read_only_disk).
Proof.
  split; [|reflexivity].
  unfold all_or_nothing. simpl.
  intros [[H _] | [H _]]; discriminate.
Qed.

(* ================================================================== *)
(** * Saving and loading *)

Lemma by_created_perm ts : Permutation ts (Tasks.by_created ts).
Proof. apply sort_by_perm. Qed.

(** What a round trip gives: the saved tasks, with every field, in the
    order of their creation times, and a counter recomputed from the ids of
    the tasks that were saved. *)
Lemma save_then_load_effect s :
  writable (disk s) = true ->
  tasks (save_then_load s) = Tasks.by_created (tasks s)
  /\ _id_counter (save_then_load s)
     = Z.max 1 (Tasks.last_id_of (tasks s) + 1).
Proof.
  intros W. unfold save_then_load.
  rewrite pickle_tasks_effect, W, start_effect. simpl.
  split; reflexivity.
Qed.

(** C1 at a failing input.  A new store receives two tasks (ids 1 and 2)
    and deletes the second.  Before the round trip the next [add] would
    hand out 3; after saving and loading in a new process the tasks are the
    same, but the counter was rebuilt from the one task left and the next
    [add] hands out 2 again, the id of the deleted task. *)
Theorem roundtrip_forgets_deleted_id :
  fst (run Sample.two_adds_one_delete Sample.new_store)
  = [Assigned 1; Assigned 2; Deleted 2]
  /\ next_id Sample.after_delete = Some 3
  /\ tasks (save_then_load Sample.after_delete) = tasks Sample.after_delete
  /\ file (disk Sample.after_delete)
     = Pickled (tasks Sample.after_delete) 1
  /\ _id_counter Sample.after_delete = 3
  /\ _id_counter (save_then_load Sample.after_delete) = 2
  /\ next_id (save_then_load Sample.after_delete) = Some 2.
Proof. repeat split; reflexivity. Qed.

(* ================================================================== *)
(** * The order of the list *)

Lemma dt_le_not_lt a b : dt_le a b -> DT.ltb b a = false.
Proof.
  intros [H | ->].
  - destruct (DT.ltb b a) eqn:E; [|reflexivity].
    apply dt_ltb_spec in E. unfold dt_lt in *. lia.
  - destruct (DT.ltb b b) eqn:E; [|reflexivity].
    apply dt_ltb_spec in E. unfold dt_lt in E. lia.
Qed.

Lemma created_le_trans t u v :
  created_le t u -> created_le u v -> created_le t v.
Proof. unfold created_le. apply dt_le_trans. Qed.

Lemma by_created_sorted ts : sorted_by_created (Tasks.by_created ts).
Proof.
  unfold sorted_by_created, Tasks.by_created.
  apply sort_by_sorted with (P := fun _ => True).
  - exact created_le_trans.
  - intros x y _ _. apply dt_not_lt_le.
  - intros x y _ _ H. apply dt_lt_le. now apply dt_ltb_spec.
  - apply Forall_forall. trivial.
Qed.

Lemma by_created_sorted_id ts :
  sorted_by_created ts -> Tasks.by_created ts = ts.
Proof.
  intros H. apply sort_by_sorted_id.
  eapply StronglySorted_ind with (P := fun l =>
    StronglySorted (fun x y => DT.ltb (created y) (created x) = false) l);
    [constructor | | exact H].
  intros a l _ IH Ha. constructor; [exact IH|].
  eapply Forall_impl; [|exact Ha]. intros u Hu. now apply dt_le_not_lt.
Qed.

Lemma remove_first_sorted {R : Task -> Task -> Prop} i ts :
  StronglySorted R ts -> StronglySorted R (Tasks.remove_first i ts).
Proof.
  induction 1 as [|t r Hr IH Ht]; simpl; [constructor|].
  destruct (Tasks.has_id i t); [assumption|].
  constructor; [assumption|].
  rewrite Forall_forall in *. intros u Hu. apply Ht.
  eapply remove_first_incl; eassumption.
Qed.

Lemma mark_first_created i now ts :
  map created (Tasks.mark_first i now ts) = map created ts.
Proof.
  induction ts as [|u r IH]; simpl; [reflexivity|].
  destruct (Tasks.has_id i u); simpl; [reflexivity | now rewrite IH].
Qed.

Lemma sorted_by_created_map ts :
  sorted_by_created ts <-> StronglySorted dt_le (map created ts).
Proof.
  unfold sorted_by_created, created_le.
  induction ts as [|t r IH]; simpl.
  - split; constructor.
  - split; intros H; inversion H; subst; constructor;
      try (now apply IH); now rewrite ?Forall_map in *.
Qed.

Lemma step_tasks_sorted c s :
  sorted_by_created (tasks s) -> sorted_by_created (tasks (snd (step c s))).
Proof.
  intros Hs. destruct c as [nm p due now|i|i now]; unfold step.
  - rewrite add_effect. cbv zeta.
    destruct (writable (disk s)); simpl; apply by_created_sorted.
  - rewrite delete_effect.
    destruct (find (Tasks.has_id i) (tasks s));
      [destruct (writable (disk s))|]; simpl;
      try assumption; now apply remove_first_sorted.
  - rewrite done_effect.
    destruct (find (Tasks.has_id i) (tasks s)) as [t|];
      [destruct (completed t); [|destruct (writable (disk s))]|];
      simpl; try assumption;
      apply sorted_by_created_map; rewrite mark_first_created;
      now apply sorted_by_created_map.
Qed.

Lemma run_cons c cs s :
  run (c :: cs) s =
  (fst (step c s) :: fst (run cs (snd (step c s))),
   snd (run cs (snd (step c s)))).
Proof.
  simpl. destruct (step c s) as [e s1]. simpl.
  now destruct (run cs s1).
Qed.

Lemma start_sorted d : sorted_by_created (tasks (Tasks.start d)).
Proof.
  rewrite start_effect. destruct (file d); simpl;
    try constructor. apply by_created_sorted.
Qed.

Lemma run_tasks_sorted cs : forall s,
  sorted_by_created (tasks s) ->
  sorted_by_created (tasks (snd (run cs s))).
Proof.
  induction cs as [|c cs IH]; intros s Hs; [exact Hs|].
  rewrite run_cons. simpl. apply IH. now apply step_tasks_sorted.
Qed.

(** X1. The list of a store is in the order of the creation times after
    loading and after every call, whatever the data file held and whatever
    the calls are; a call that raised included. *)
Theorem store_sorted_by_created (d : Disk) (cs : list Call) :
  sorted_by_created (tasks (Tasks.start d))
  /\ sorted_by_created (tasks (snd (run cs (Tasks.start d)))).
Proof.
  split; [apply start_sorted|]. apply run_tasks_sorted, start_sorted.
Qed.

(* ================================================================== *)
(** * What survives the process *)

Lemma at_exit_effect s :
  Tasks.at_exit s =
  if writable (disk s)
  then mkDisk (Pickled (tasks s) (Tasks.last_id_of (tasks s))) true
  else disk s.
Proof.
  unfold Tasks.at_exit. rewrite pickle_tasks_effect.
  destruct (writable (disk s)); reflexivity.
Qed.

(** A call keeps the disk writable or not, as it was. *)
Lemma step_writable c s :
  writable (disk (snd (step c s))) = writable (disk s).
Proof.
  destruct c as [nm p due now|i|i now]; unfold step.
  - rewrite add_effect. cbv zeta.
    destruct (writable (disk s)) eqn:W; simpl; [reflexivity | exact W].
  - rewrite delete_effect.
    destruct (find (Tasks.has_id i) (tasks s));
      [destruct (writable (disk s)) eqn:W|]; simpl; congruence.
  - rewrite done_effect.
    destruct (find (Tasks.has_id i) (tasks s)) as [t|];
      [destruct (completed t); [|destruct (writable (disk s)) eqn:W]|];
      simpl; congruence.
Qed.

Lemma step_read_only c s :
  writable (disk s) = false -> disk (snd (step c s)) = disk s.
Proof.
  intros W. destruct c as [nm p due now|i|i now]; unfold step.
  - rewrite add_effect, W. reflexivity.
  - rewrite delete_effect, W.
    now destruct (find (Tasks.has_id i) (tasks s)).
  - rewrite done_effect, W.
    destruct (find (Tasks.has_id i) (tasks s)) as [t|]; [|reflexivity].
    now destruct (completed t).
Qed.

Lemma run_read_only cs : forall s,
  writable (disk s) = false -> disk (snd (run cs s)) = disk s.
Proof.
  induction cs as [|c cs IH]; intros s W; [reflexivity|].
  rewrite run_cons. simpl. rewrite IH.
  - now apply step_read_only.
  - now rewrite step_writable.
Qed.

Lemma run_writable cs : forall s,
  writable (disk (snd (run cs s))) = writable (disk s).
Proof.
  induction cs as [|c cs IH]; intros s; [reflexivity|].
  rewrite run_cons. simpl. now rewrite IH, step_writable.
Qed.

Lemma start_disk d : disk (Tasks.start d) = d.
Proof. rewrite start_effect. now destruct (file d). Qed.

Lemma start_pickled ts last w :
  sorted_by_created ts ->
  tasks (Tasks.start (mkDisk (Pickled ts last) w)) = ts.
Proof.
  intros H. rewrite start_effect. simpl. now apply by_created_sorted_id.
Qed.

(** A call on a writable disk leaves a store that a new process would
    load as it is. *)
Lemma step_recoverable c s :
  writable (disk s) = true -> sorted_by_created (tasks s) ->
  recoverable s -> recoverable (snd (step c s)).
Proof.
  intros W Hs Hr.
  pose proof (step_tasks_sorted c s Hs) as Hs'.
  revert Hs'. unfold recoverable.
  destruct c as [nm p due now|i|i now]; unfold step.
  - rewrite add_effect, W. cbv zeta. cbn [snd tasks disk final].
    apply start_pickled.
  - rewrite delete_effect, W.
    destruct (find (Tasks.has_id i) (tasks s)); cbn [snd tasks disk final];
      [apply start_pickled | intros _; exact Hr].
  - rewrite done_effect, W.
    destruct (find (Tasks.has_id i) (tasks s)) as [t|];
      [destruct (completed t)|]; cbn [snd tasks disk final];
      try (intros _; exact Hr). apply start_pickled.
Qed.

Lemma run_recoverable cs : forall s,
  writable (disk s) = true -> sorted_by_created (tasks s) ->
  recoverable s -> recoverable (snd (run cs s)).
Proof.
  induction cs as [|c cs IH]; intros s W Hs Hr; [exact Hr|].
  rewrite run_cons. simpl. apply IH.
  - now rewrite step_writable.
  - now apply step_tasks_sorted.
  - now apply step_recoverable.
Qed.

(** X2. Nothing is lost on a writable disk.  After any sequence of calls
    in a process, a new process loads exactly the list the old one held,
    whether the old one ended normally (the exit hook saves once more) or
    was cut off right after the last call. *)
Theorem restart_recovers_store (d : Disk) (cs : list Call) :
  writable d = true ->
  let s := snd (run cs (Tasks.start d)) in
  tasks (Tasks.start (disk s)) = tasks s
  /\ tasks (Tasks.start (Tasks.at_exit s)) = tasks s.
Proof.
  intros W s.
  assert (Hsorted : sorted_by_created (tasks s)).
  { apply run_tasks_sorted, start_sorted. }
  split.
  - apply run_recoverable.
    + now rewrite start_disk.
    + apply start_sorted.
    + unfold recoverable. now rewrite start_disk.
  - rewrite at_exit_effect. subst s. rewrite run_writable, start_disk, W.
    now apply start_pickled.
Qed.

Lemma restart_recovers_store_witness :
  tasks (Tasks.start (disk Sample.after_delete)) = tasks Sample.after_delete.
Proof.
  apply (restart_recovers_store Sample.new_disk Sample.two_adds_one_delete).
  reflexivity.
Defined.

(** X3. On a disk that cannot be written every change is lost: whatever
    the calls, the disk is as it was, also after the exit hook, and a new
    process loads what the old one had loaded. *)
Theorem read_only_disk_keeps_nothing (d : Disk) (cs : list Call) :
  writable d = false ->
  let s := snd (run cs (Tasks.start d)) in
  disk s = d /\ Tasks.at_exit s = d
  /\ Tasks.start (Tasks.at_exit s) = Tasks.start d.
Proof.
  intros W s.
  assert (Hd : disk s = d).
  { subst s. rewrite run_read_only; rewrite start_disk; auto. }
  assert (He : Tasks.at_exit s = d).
  { rewrite at_exit_effect. rewrite Hd at 1. now rewrite W. }
  split; [exact Hd|]. split; [exact He|]. now rewrite He.
Qed.

Lemma read_only_disk_keeps_nothing_witness :
  Tasks.at_exit
    (snd (run Sample.two_adds_one_delete
            (Tasks.start Sample.read_only_disk)))
  = Sample.read_only_disk.
Proof.
  apply (read_only_disk_keeps_nothing Sample.read_only_disk
           Sample.two_adds_one_delete).
  reflexivity.
Defined.

(* ================================================================== *)
(** * Ids across restarts *)

Lemma run_ids_below cs : forall s,
  ids_below_counter s -> ids_below_counter (snd (run cs s)).
Proof.
  induction cs as [|c cs IH]; intros s Hs; [exact Hs|].
  rewrite run_cons. simpl. apply IH.
  pose proof (step_ids c s Hs) as H. destruct (step c s). simpl. tauto.
Qed.

Lemma start_nodup d :
  disk_ids_ok d -> NoDup (map unique_id (tasks (Tasks.start d))).
Proof.
  unfold disk_ids_ok. rewrite start_effect.
  destruct (file d) as [| |l last]; simpl; try constructor.
  intros [H _]. eapply Permutation_NoDup; [|exact H].
  apply Permutation_map, sort_by_perm.
Qed.

Lemma start_below d :
  disk_ids_ok d -> ids_below_counter (Tasks.start d).
Proof.
  unfold disk_ids_ok. intros H. apply start_ids_below_counter.
  destruct (file d); tauto.
Qed.

(** X4. Tasks never share an id, across restarts too.  If the tasks of the
    data file have distinct ids, none above the stored last id, then after
    loading, any calls and the exit hook, the store and the data file are
    again of that kind.  (An id may still come back after its task was
    deleted; it is never held by two tasks at once.) *)
Theorem ids_distinct_across_restarts (d : Disk) (cs : list Call) :
  disk_ids_ok d ->
  let s := snd (run cs (Tasks.start d)) in
  NoDup (map unique_id (tasks s))
  /\ ids_below_counter s
  /\ disk_ids_ok (Tasks.at_exit s).
Proof.
  intros Hd s.
  assert (Hn : NoDup (map unique_id (tasks s))).
  { apply run_nodup; [now apply start_below | now apply start_nodup]. }
  split; [exact Hn|]. split; [now apply run_ids_below, start_below|].
  rewrite at_exit_effect. destruct (writable (disk s)) eqn:W.
  - unfold disk_ids_ok. simpl. split; [exact Hn | apply last_id_of_ge].
  - subst s. rewrite run_read_only; rewrite ?start_disk; auto.
    now rewrite run_writable, start_disk in W.
Qed.

Lemma ids_distinct_across_restarts_witness :
  disk_ids_ok
    (Tasks.at_exit (snd (run Sample.two_adds_one_delete
                           (Tasks.start (disk Sample.two_tasks))))).
Proof.
  apply (ids_distinct_across_restarts (disk Sample.two_tasks)
           Sample.two_adds_one_delete).
  unfold disk_ids_ok. simpl. split; repeat constructor; simpl; intuition lia.
Defined.

(* ================================================================== *)
(** * What [add] and [delete] do to the list *)

(** X5. [add] puts exactly one new task in the list and keeps the others:
    the new task carries the old counter as id, the current time, no
    completion time, the name and due date given, and the priority given
    if that is 1, 2 or 3, else 1; the counter moves up by one.  On a
    writable disk the task is returned and the file holds the new list;
    otherwise the call raises with the task already in the list. *)
Theorem add_contract (s : State) (nm : string) (prio : Z)
  (due : option datetime) (now : datetime) :
  let o := Tasks.add nm prio due now s in
  exists t,
    Permutation (t :: tasks s) (tasks (final o))
    /\ unique_id t = _id_counter s
    /\ _id_counter (final o) = _id_counter s + 1
    /\ created t = now /\ completed t = None
    /\ name t = nm /\ due_date t = due
    /\ valid_priority t
    /\ (prio = 1 \/ prio = 2 \/ prio = 3 -> priority t = prio)
    /\ (prio <> 1 -> prio <> 2 -> prio <> 3 -> priority t = 1)
    /\ (if writable (disk s)
        then o = Returned t (final o) /\ persisted (final o)
        else o = Raised OSError (final o) /\ disk (final o) = disk s).
Proof.
  cbv zeta. rewrite add_effect. cbv zeta.
  exists (mkTask now None nm (_id_counter s) (coerce_priority prio) due).
  assert (Hp : forall t, Permutation (t :: tasks s)
                           (Tasks.by_created (tasks s ++ [t]))).
  { intros t. rewrite <- by_created_perm. apply Permutation_cons_append. }
  assert (Hv : coerce_priority prio = 1 \/ coerce_priority prio = 2
               \/ coerce_priority prio = 3).
  { unfold coerce_priority.
    destruct (Z.eqb_spec prio 1), (Z.eqb_spec prio 2), (Z.eqb_spec prio 3);
      simpl; lia. }
  assert (Hk : prio = 1 \/ prio = 2 \/ prio = 3 -> coerce_priority prio = prio).
  { unfold coerce_priority. intros [-> | [-> | ->]]; reflexivity. }
  assert (Hd : prio <> 1 -> prio <> 2 -> prio <> 3 -> coerce_priority prio = 1).
  { unfold coerce_priority. intros H1 H2 H3.
    apply Z.eqb_neq in H1, H2, H3. now rewrite H1, H2, H3. }
  destruct (writable (disk s)); simpl;
    repeat (split; [first [apply Hp | exact Hv | exact Hk | exact Hd
                          | reflexivity]|]);
    split; reflexivity.
Qed.

Lemma remove_first_filter i ts :
  NoDup (map unique_id ts) ->
  Tasks.remove_first i ts = filter (fun t => negb (Tasks.has_id i t)) ts.
Proof.
  induction ts as [|t r IH]; simpl; [reflexivity|].
  intros H. inversion H as [|? ? Ht Hr]; subst.
  destruct (Tasks.has_id i t) eqn:E; simpl.
  - symmetry. apply filter_all_in. intros u Hu.
    destruct (Tasks.has_id i u) eqn:F; [|reflexivity].
    exfalso. apply Ht. unfold Tasks.has_id in E, F.
    apply Z.eqb_eq in E, F. rewrite E, <- F. now apply in_map.
  - now rewrite IH.
Qed.

Lemma find_filter_out i ts :
  find (Tasks.has_id i) (filter (fun t => negb (Tasks.has_id i t)) ts) = None.
Proof.
  induction ts as [|t r IH]; simpl; [reflexivity|].
  destruct (Tasks.has_id i t) eqn:E; simpl; [exact IH|]. now rewrite E.
Qed.

(** X6. [delete] on a store whose tasks have distinct ids: the list
    afterwards is the old one without the task of that id, the others in
    their order; the call answers [False] exactly when no task has the id,
    and then changes nothing; after it no task has the id, so that a second
    [delete] of the same id answers [False] and changes nothing. *)
Theorem delete_contract (s : State) (i : Z) :
  NoDup (map unique_id (tasks s)) ->
  let o := Tasks.delete i s in
  tasks (final o) = filter (fun t => negb (Tasks.has_id i t)) (tasks s)
  /\ _id_counter (final o) = _id_counter s
  /\ (returned o = Some false <->
      ~ exists t, In t (tasks s) /\ unique_id t = i)
  /\ (returned o = Some false -> o = Returned false s)
  /\ ((exists t, In t (tasks s) /\ unique_id t = i) ->
      if writable (disk s)
      then returned o = Some true /\ persisted (final o)
      else o = Raised OSError (final o) /\ disk (final o) = disk s)
  /\ (forall t, In t (tasks (final o)) -> unique_id t <> i)
  /\ Tasks.delete i (final o) = Returned false (final o).
Proof.
  intros Hn. cbv zeta.
  assert (Hagain : forall c d,
    Tasks.delete i
      (mkState (filter (fun t => negb (Tasks.has_id i t)) (tasks s)) c d)
    = Returned false
        (mkState (filter (fun t => negb (Tasks.has_id i t)) (tasks s)) c d)).
  { intros c d. rewrite delete_effect. simpl. now rewrite find_filter_out. }
  assert (Hgone : forall t,
    In t (filter (fun t => negb (Tasks.has_id i t)) (tasks s)) ->
    unique_id t <> i).
  { intros t Ht. apply filter_In in Ht as [_ Ht]. unfold Tasks.has_id in Ht.
    apply negb_true_iff, Z.eqb_neq in Ht. exact Ht. }
  rewrite delete_effect.
  destruct (find (Tasks.has_id i) (tasks s)) as [t|] eqn:F.
  - assert (Hex : exists t, In t (tasks s) /\ unique_id t = i).
    { exists t. now apply find_has_id. }
    cbv zeta. rewrite (remove_first_filter i (tasks s) Hn).
    destruct (writable (disk s)); simpl;
      (split; [reflexivity|]); (split; [reflexivity|]);
      (split; [split; [discriminate | tauto]|]);
      (split; [discriminate|]);
      (split; [intros _; split; reflexivity|]);
      (split; [exact Hgone | apply Hagain]).
  - pose proof (proj1 (find_none_no_id i (tasks s)) F) as Hno. simpl.
    assert (Hsame : tasks s
                    = filter (fun t => negb (Tasks.has_id i t)) (tasks s)).
    { symmetry. apply filter_all_in. intros u Hu.
      apply (find_none _ _ F) in Hu. now rewrite Hu. }
    split; [exact Hsame|]. split; [reflexivity|].
    split; [tauto|]. split; [reflexivity|]. split; [tauto|].
    split.
    + intros u Hu Hi. apply Hno. now exists u.
    + rewrite delete_effect, F. reflexivity.
Qed.

Lemma delete_contract_witness :
  tasks (final (Tasks.delete 1 Sample.two_tasks)) = [Sample.rent].
Proof.
  assert (Hn : NoDup (map unique_id (tasks Sample.two_tasks))).
  { simpl. repeat constructor; simpl; intuition lia. }
  destruct (delete_contract Sample.two_tasks 1 Hn) as (H & _).
  exact H.
Defined.

(* ================================================================== *)
(** * What a task keeps *)

Lemma same_but_completion_refl t : same_but_completion t t.
Proof. repeat split. Qed.

Lemma same_but_completion_trans t u v :
  same_but_completion t u -> same_but_completion u v ->
  same_but_completion t v.
Proof. unfold same_but_completion. intuition congruence. Qed.

Lemma remove_first_keeps i ts t :
  In t ts -> unique_id t <> i -> In t (Tasks.remove_first i ts).
Proof.
  induction ts as [|u r IH]; simpl; [tauto|].
  intros [-> | Hin] Hne.
  - unfold Tasks.has_id. apply Z.eqb_neq in Hne. rewrite Hne. now left.
  - destruct (Tasks.has_id i u); [assumption|]. right. now apply IH.
Qed.

Lemma mark_first_keeps i now ts t :
  In t ts ->
  In t (Tasks.mark_first i now ts)
  \/ (find (Tasks.has_id i) ts = Some t
      /\ In (mark_completed now t) (Tasks.mark_first i now ts)).
Proof.
  induction ts as [|u r IH]; simpl; [tauto|].
  intros [-> | Hin].
  - destruct (Tasks.has_id i t).
    + right. split; [reflexivity | now left].
    + left. now left.
  - destruct (Tasks.has_id i u); [left; now right|].
    destruct (IH Hin) as [H | [H1 H2]].
    + left. now right.
    + right. split; [exact H1 | now right].
Qed.

(** One call: a task of the store is still there, with the same fields
    except perhaps the completion time, unless the call deletes its id. *)
Lemma step_keeps_task c s t :
  In t (tasks s) ->
  (exists u, In u (tasks (snd (step c s))) /\ same_but_completion t u
             /\ (completed t <> None -> u = t)
             /\ (completed t = None -> completed u = None
                 \/ exists i now, c = CallDone i now /\ unique_id t = i
                                  /\ completed u = Some now))
  \/ deletes (unique_id t) c.
Proof.
  intros Hin.
  assert (Hsame : forall l, In t l ->
    exists u, In u l /\ same_but_completion t u
              /\ (completed t <> None -> u = t)
              /\ (completed t = None -> completed u = None
                  \/ exists i now, c = CallDone i now /\ unique_id t = i
                                   /\ completed u = Some now)).
  { intros l Hl. exists t. split; [exact Hl|].
    split; [apply same_but_completion_refl|]. split; [reflexivity|].
    intros H. now left. }
  destruct c as [nm p due now|i|i now]; unfold step.
  - left. rewrite add_effect. cbv zeta. apply Hsame.
    assert (Hp : forall w, In t (Tasks.by_created
      (tasks s ++ [mkTask now None nm (_id_counter s) w due]))).
    { intros w. eapply Permutation_in; [apply by_created_perm|].
      apply in_or_app. now left. }
    destruct (writable (disk s)); simpl; apply Hp.
  - destruct (Z.eq_dec (unique_id t) i) as [E | N].
    + right. unfold deletes. now rewrite E.
    + left. apply Hsame. rewrite delete_effect.
      destruct (find (Tasks.has_id i) (tasks s));
        [destruct (writable (disk s))|]; simpl;
        try assumption; now apply remove_first_keeps.
  - left. rewrite done_effect.
    destruct (find (Tasks.has_id i) (tasks s)) as [t0|] eqn:F;
      [|simpl; now apply Hsame].
    destruct (completed t0) eqn:C; [simpl; now apply Hsame|].
    destruct (mark_first_keeps i now (tasks s) t Hin) as [H | [H1 H2]].
    + apply Hsame. destruct (writable (disk s)); simpl; exact H.
    + rewrite F in H1. injection H1 as ->.
      exists (mark_completed now t).
      split; [destruct (writable (disk s)); simpl; exact H2|].
      split; [repeat split|]. split; [congruence|].
      intros _. right. exists i, now. split; [reflexivity|].
      split; [|reflexivity]. now apply find_has_id in F.
Qed.

(** X7. Over any sequence of calls, a task of the store stays in the
    store with its id, name, creation time, priority and due date unless
    some call deletes its id; and if it was completed, it stays exactly as
    it was: no call clears or changes a completion time. *)
Theorem task_fields_kept (cs : list Call) : forall (s : State) (t : Task),
  In t (tasks s) ->
  (exists u, In u (tasks (snd (run cs s))) /\ same_but_completion t u
             /\ (completed t <> None -> u = t))
  \/ Exists (deletes (unique_id t)) cs.
Proof.
  induction cs as [|c cs IH]; intros s t Hin.
  - left. exists t. split; [exact Hin|].
    split; [apply same_but_completion_refl | reflexivity].
  - rewrite run_cons. simpl.
    destruct (step_keeps_task c s t Hin)
      as [(u & Hu & Hsame & Hdone & _) | Hdel];
      [|right; now constructor].
    destruct (IH (snd (step c s)) u Hu)
      as [(v & Hv & Hsame' & Hdone') | Hdel].
    + left. exists v. split; [exact Hv|].
      split; [eapply same_but_completion_trans; eassumption|].
      intros Hc. specialize (Hdone Hc). subst u. now apply Hdone'.
    + right. apply Exists_cons_tl.
      destruct Hsame as (_ & _ & Hid & _). now rewrite <- Hid.
Qed.

Lemma task_fields_kept_witness :
  (exists u,
      In u (tasks (snd (run Sample.two_adds_one_delete Sample.two_tasks)))
      /\ same_but_completion Sample.milk u)
  /\ In Sample.rent
       (tasks (snd (run Sample.done_then_delete Sample.two_tasks))).
Proof.
  split.
  - destruct (task_fields_kept Sample.two_adds_one_delete Sample.two_tasks
                Sample.milk (or_introl eq_refl))
      as [(u & Hu & Hsame & _) | Hdel].
    + exists u. split; assumption.
    + exfalso. unfold Sample.two_adds_one_delete in Hdel.
      repeat (apply Exists_cons in Hdel;
              destruct Hdel as [Hdel | Hdel]; [discriminate Hdel|]).
      inversion Hdel.
  - destruct (task_fields_kept Sample.done_then_delete Sample.two_tasks
                Sample.rent (or_intror (or_introl eq_refl)))
      as [(u & Hu & _ & Hkept) | Hdel].
    + rewrite <- (Hkept ltac:(discriminate)). exact Hu.
    + exfalso. unfold Sample.done_then_delete in Hdel.
      repeat (apply Exists_cons in Hdel;
              destruct Hdel as [Hdel | Hdel]; [discriminate Hdel|]).
      inversion Hdel.
Defined.

(* ================================================================== *)
(** * [list] and [report] *)

Lemma filter_partition_perm {A} (f : A -> bool) (l : list A) :
  Permutation l (filter f l ++ filter (fun x => negb (f x)) l).
Proof.
  induction l as [|x r IH]; simpl; [constructor|].
  destruct (f x); simpl.
  - now constructor.
  - rewrite <- Permutation_middle. now constructor.
Qed.

Lemma query_completed_filter c s :
  Tasks.query None None None None (Some c) s
  = filter (fun t => Bool.eqb (Tasks.is_completed t) c) (tasks s).
Proof. reflexivity. Qed.

(** X8. [list(True)] is the whole list; [list(False)] is what
    [query(completed=False)] returns, the open tasks in the order of the
    store; every task is returned by exactly one of [query(completed=True)]
    and [query(completed=False)], so that the two results together are a
    rearrangement of the list. *)
Theorem list_and_query_by_completion (s : State) :
  Tasks.list true s = tasks s
  /\ Tasks.list false s = Tasks.query None None None None (Some false) s
  /\ (forall t, In t (Tasks.list false s) <->
                In t (tasks s) /\ completed t = None)
  /\ (forall t, In t (Tasks.query None None None None (Some true) s) ->
                In t (Tasks.query None None None None (Some false) s) ->
                False)
  /\ Permutation (tasks s)
       (Tasks.query None None None None (Some true) s
        ++ Tasks.query None None None None (Some false) s).
Proof.
  split; [reflexivity|].
  assert (Hf : Tasks.list false s
               = Tasks.query None None None None (Some false) s).
  { rewrite query_completed_filter. unfold Tasks.list.
    apply filter_ext. intros t. now destruct (Tasks.is_completed t). }
  split; [exact Hf|]. split; [|split].
  - intros t. unfold Tasks.list. rewrite filter_In.
    unfold Tasks.is_completed. destruct (completed t); simpl;
      intuition congruence.
  - intros t. rewrite !query_completed_filter, !filter_In.
    destruct (Tasks.is_completed t); simpl; intuition discriminate.
  - rewrite !query_completed_filter.
    erewrite (filter_ext (fun t => Bool.eqb (Tasks.is_completed t) true)
                (fun t => Tasks.is_completed t)).
    + erewrite (filter_ext (fun t => Bool.eqb (Tasks.is_completed t) false)
                  (fun t => negb (Tasks.is_completed t))).
      * apply filter_partition_perm.
      * intros t. now destruct (Tasks.is_completed t).
    + intros t. now destruct (Tasks.is_completed t).
Qed.

(** Counting with [sum] over booleans. *)
Lemma sum_flags_acc (f : Task -> bool) ts : forall acc,
  fold_left (fun a t => a + (if f t then 1 else 0)) ts acc
  = acc + Z.of_nat (List.length (filter f ts)).
Proof.
  induction ts as [|t r IH]; intros acc; simpl; [lia|].
  rewrite IH. destruct (f t); simpl List.length; lia.
Qed.

(** [tally] from counters [a], [b], [c] for the keys 1, 2, 3. *)
Lemma tally_valid ts : forall a b c,
  Forall valid_priority ts ->
  Tasks.tally ts [(1, a); (2, b); (3, c)]
  = Some [(1, a + count_priority 1 ts); (2, b + count_priority 2 ts);
          (3, c + count_priority 3 ts)].
Proof.
  unfold count_priority.
  induction ts as [|t r IH]; intros a b c Hv; simpl.
  - now rewrite !Z.add_0_r.
  - inversion Hv as [|? ? Ht Hr]; subst.
    destruct Ht as [E | [E | E]]; rewrite E; simpl;
      rewrite (IH _ _ _ Hr); apply f_equal;
      (apply f_equal2; [apply f_equal; lia|]);
      (apply f_equal2; [apply f_equal; lia|]);
      (apply f_equal2; [apply f_equal; lia | reflexivity]).
Qed.

Lemma tally_invalid ts : forall a b c,
  ~ Forall valid_priority ts ->
  Tasks.tally ts [(1, a); (2, b); (3, c)] = None.
Proof.
  induction ts as [|t r IH]; intros a b c Hv.
  - exfalso. apply Hv. constructor.
  - cbn [Tasks.tally Tasks.bump].
    destruct (Z.eqb_spec 1 (priority t)) as [E1 | N1].
    { apply IH. intros H. apply Hv. constructor; [left; lia | exact H]. }
    destruct (Z.eqb_spec 2 (priority t)) as [E2 | N2]; cbn [option_map].
    { apply IH. intros H. apply Hv. constructor; [right; left; lia | exact H]. }
    destruct (Z.eqb_spec 3 (priority t)) as [E3 | N3]; cbn [option_map].
    { apply IH. intros H. apply Hv.
      constructor; [right; right; lia | exact H]. }
    reflexivity.
Qed.

Lemma count_priorities_total ts :
  Forall valid_priority ts ->
  count_priority 1 ts + count_priority 2 ts + count_priority 3 ts
  = Z.of_nat (List.length ts).
Proof.
  unfold count_priority. induction 1 as [|t r Ht Hr IH]; simpl; [reflexivity|].
  destruct Ht as [E | [E | E]]; rewrite E; simpl List.length; lia.
Qed.

Lemma filter_lengths {A} (f : A -> bool) (l : list A) :
  Z.of_nat (List.length (filter f l))
  + Z.of_nat (List.length (filter (fun x => negb (f x)) l))
  = Z.of_nat (List.length l).
Proof.
  rewrite (Permutation_length (filter_partition_perm f l)), length_app. lia.
Qed.

(** X9. [report] on a store whose priorities are all 1, 2 or 3 returns
    the number of tasks, the number of completed ones (as many as
    [query(completed=True)] returns), the number of open ones (as many as
    [list(False)] returns), these two adding up to the total, and for each
    priority the number of tasks [query(priority=k)] returns, the three
    adding up to the total as well. *)
Theorem report_counts (s : State) :
  Forall valid_priority (tasks s) ->
  exists r,
    Tasks.report s = Some r
    /\ Tasks.r_total r = Z.of_nat (List.length (tasks s))
    /\ Tasks.r_open r + Tasks.r_completed r = Tasks.r_total r
    /\ Tasks.r_completed r
       = Z.of_nat (List.length
                     (Tasks.query None None None None (Some true) s))
    /\ Tasks.r_open r = Z.of_nat (List.length (Tasks.list false s))
    /\ (forall k, k = 1 \/ k = 2 \/ k = 3 ->
        Tasks.lookup k (Tasks.r_by_priority r)
        = Some (Z.of_nat (List.length
                            (Tasks.query None (Some k) None None None s))))
    /\ (exists a b c,
          Tasks.r_by_priority r = [(1, a); (2, b); (3, c)]
          /\ a + b + c = Tasks.r_total r).
Proof.
  intros Hv. unfold Tasks.report. cbv zeta.
  rewrite (tally_valid (tasks s) 0 0 0 Hv), sum_flags_acc.
  eexists. split; [reflexivity|]. cbn [Tasks.r_total Tasks.r_open
    Tasks.r_completed Tasks.r_by_priority].
  assert (Hc : filter Tasks.is_completed (tasks s)
               = Tasks.query None None None None (Some true) s).
  { rewrite query_completed_filter. apply filter_ext.
    intros t. now destruct (Tasks.is_completed t). }
  pose proof (filter_lengths Tasks.is_completed (tasks s)) as Hl.
  split; [reflexivity|]. split; [lia|]. split; [now rewrite Hc|].
  split; [unfold Tasks.list; lia|]. split.
  - intros k [-> | [-> | ->]]; reflexivity.
  - do 3 eexists. split; [reflexivity|].
    pose proof (count_priorities_total (tasks s) Hv). lia.
Qed.

Lemma report_counts_witness :
  exists r,
    Tasks.report Sample.two_tasks = Some r
    /\ Tasks.r_open r + Tasks.r_completed r = Tasks.r_total r.
Proof.
  assert (Hv : Forall valid_priority (tasks Sample.two_tasks)).
  { repeat constructor; unfold valid_priority; simpl; lia. }
  destruct (report_counts Sample.two_tasks Hv) as (r & Hr & _ & Hsum & _).
  exists r. split; [exact Hr | exact Hsum].
Defined.

Example report_two_tasks :
  Tasks.report Sample.two_tasks
  = Some (Tasks.mkReport 2 1 1 [(1, 1); (2, 1); (3, 0)]).
Proof. reflexivity. Qed.

Lemma coerce_priority_valid p :
  coerce_priority p = 1 \/ coerce_priority p = 2 \/ coerce_priority p = 3.
Proof.
  unfold coerce_priority.
  destruct (Z.eqb_spec p 1), (Z.eqb_spec p 2), (Z.eqb_spec p 3);
    simpl; lia.
Qed.

Lemma step_valid_priority c s :
  Forall valid_priority (tasks s) ->
  Forall valid_priority (tasks (snd (step c s))).
Proof.
  intros Hv. destruct c as [nm p due now|i|i now]; unfold step.
  - rewrite add_effect. cbv zeta.
    assert (Hnew : Forall valid_priority (Tasks.by_created
      (tasks s ++ [mkTask now None nm (_id_counter s)
                     (coerce_priority p) due]))).
    { eapply Permutation_Forall; [apply by_created_perm|].
      apply Forall_app. split; [exact Hv|].
      constructor; [|constructor]. apply coerce_priority_valid. }
    destruct (writable (disk s)); simpl; exact Hnew.
  - rewrite delete_effect.
    assert (Hrm : Forall valid_priority (Tasks.remove_first i (tasks s))).
    { rewrite Forall_forall in *. intros u Hu. apply Hv.
      eapply remove_first_incl; eassumption. }
    destruct (find (Tasks.has_id i) (tasks s));
      [destruct (writable (disk s))|]; simpl; assumption.
  - rewrite done_effect.
    assert (Hmk : Forall valid_priority (Tasks.mark_first i now (tasks s))).
    { clear - Hv. induction Hv as [|t r Ht Hr IH]; simpl; [constructor|].
      destruct (Tasks.has_id i t); constructor; assumption. }
    destruct (find (Tasks.has_id i) (tasks s)) as [t|];
      [destruct (completed t); [|destruct (writable (disk s))]|];
      simpl; assumption.
Qed.

Lemma run_valid_priority cs : forall s,
  Forall valid_priority (tasks s) ->
  Forall valid_priority (tasks (snd (run cs s))).
Proof.
  induction cs as [|c cs IH]; intros s Hv; [exact Hv|].
  rewrite run_cons. simpl. now apply IH, step_valid_priority.
Qed.

(** X10. [report] raises [KeyError] exactly when some task of the store has
    a priority other than 1, 2, 3, which only a data file from elsewhere
    can bring in: [add] stores 1, 2 or 3 whatever it is given, so from a
    store with such priorities (the empty one, for instance) no sequence of
    calls leads to a store on which [report] raises. *)
Theorem report_raises_on_foreign_priority (s : State) (cs : list Call) :
  (Tasks.report s = None <-> ~ Forall valid_priority (tasks s))
  /\ (Forall valid_priority (tasks s) ->
      Tasks.report (snd (run cs s)) <> None).
Proof.
  assert (H : forall x, Tasks.report x = None <->
                        ~ Forall valid_priority (tasks x)).
  { intros x. unfold Tasks.report. cbv zeta. split.
    - intros Hn Hv. now rewrite (tally_valid (tasks x) 0 0 0 Hv) in Hn.
    - intros Hv. now rewrite (tally_invalid (tasks x) 0 0 0 Hv). }
  split; [apply H|].
  intros Hv Hn. apply H in Hn. apply Hn. now apply run_valid_priority.
Qed.

(* ================================================================== *)
(** * [parse_due]: the keywords and the texts no format accepts *)

(** X11. "today" and "tomorrow", in any letter case and with blanks
    around, give 23:59:59 of the current day and of the day after.  The
    result for tomorrow lies after the current time; the result for today
    does unless the clock is already past 23:59:59. *)
Theorem parse_due_today_tomorrow (now : datetime) (raw : string) (k : nat) :
  nth_error ["today"; "tomorrow"] k = Some (Str.lower (Str.strip raw)) ->
  exists d,
    parse_due now (Some raw) = Ok (Some d)
    /\ DT.ordinal d = DT.ordinal now + Z.of_nat k
    /\ DT.micros d = DT.end_of_day_micros
    /\ (k = 1%nat -> dt_lt now d)
    /\ (k = 0%nat -> (dt_le now d <-> DT.micros now <= DT.end_of_day_micros)).
Proof.
  intros H.
  assert (Hne : raw <> "").
  { apply lower_strip_nonempty. intros E. rewrite E in H.
    do 2 (destruct k as [|k]; [discriminate|]). now destruct k. }
  destruct raw as [|a r]; [congruence|].
  cbv beta iota delta [parse_due].
  remember (Str.lower (Str.strip (String a r))) as s eqn:Hs. clear Hs Hne.
  destruct now as [o m].
  destruct k as [|[|k]]; [| |now destruct k]; injection H as <-;
    eexists; (split; [reflexivity|]); simpl;
    (split; [lia|]); (split; [reflexivity|]); split;
    try discriminate; intros _.
  - unfold dt_le, dt_lt. simpl. split.
    + intros [[H | [_ H]] | H]; [lia | lia | injection H as ->].
      unfold DT.end_of_day_micros. lia.
    + intros H. destruct (Z.eq_dec m DT.end_of_day_micros) as [-> | N].
      * right. reflexivity.
      * left. right. split; [reflexivity | lia].
  - unfold dt_lt. simpl. lia.
Qed.

Lemma parse_due_today_tomorrow_witness :
  parse_due (Sample.at_time 5) (Some " ToMorrow")
  = Ok (Some (DT.mkDT 738887 DT.end_of_day_micros)).
Proof.
  destruct (parse_due_today_tomorrow (Sample.at_time 5) " ToMorrow" 1
              eq_refl) as (d & Hp & Ho & Hm & _).
  rewrite Hp. destruct d as [o m]. simpl in Ho, Hm. now subst.
Defined.

(** X12. Whether a text is a keyword, and what the keyword gives, depends
    on the text only through [strip] and [lower]: two non-empty texts that
    agree after both get the same result as soon as one is a keyword. *)
Theorem parse_due_keyword_normalised (now : datetime) (raw raw' : string) :
  raw <> "" -> raw' <> "" ->
  Str.lower (Str.strip raw) = Str.lower (Str.strip raw') ->
  is_keyword raw = true ->
  is_keyword raw' = true
  /\ parse_due now (Some raw) = parse_due now (Some raw')
  /\ (forall e, parse_due now (Some raw) <> Err e).
Proof.
  intros Hne Hne' Hs Hk.
  assert (Hk' : is_keyword raw' = true).
  { unfold is_keyword in *. now rewrite <- Hs. }
  split; [exact Hk'|]. split; [|intros e; now apply keyword_never_fails].
  destruct raw as [|a r]; [congruence|].
  destruct raw' as [|a' r']; [congruence|].
  revert Hk. unfold is_keyword.
  cbv beta iota zeta delta [parse_due]. rewrite <- Hs.
  remember (Str.lower (Str.strip (String a r))) as s eqn:E. clear E Hs Hk'.
  destruct (Str.mem s no_date_tokens); [reflexivity|].
  destruct (s =? "today")%string; [reflexivity|].
  destruct (s =? "tomorrow")%string; [reflexivity|].
  cbn [orb]. intros Hk.
  destruct (Str.index s weekdays) eqn:I; [reflexivity|].
  apply index_none_mem in I. congruence.
Qed.

Lemma parse_due_keyword_normalised_witness :
  parse_due (Sample.at_time 5) (Some "  FRIDAY ")
  = parse_due (Sample.at_time 5) (Some "friday").
Proof.
  assert (H1 : "  FRIDAY " <> "") by discriminate.
  assert (H2 : "friday" <> "") by discriminate.
  apply (parse_due_keyword_normalised (Sample.at_time 5) "  FRIDAY "
           "friday" H1 H2 eq_refl eq_refl).
Defined.

(** A text that does not start with a digit matches none of the formats. *)
Lemma not_digit_between lo hi c :
  DT.is_digit c = false -> 48 <= lo -> hi <= 57 -> DT.between lo hi c = false.
Proof.
  unfold DT.is_digit, DT.between. intros H Hlo Hhi.
  destruct ((lo <=? Str.code c) && (Str.code c <=? hi)) eqn:E;
    [|reflexivity].
  apply andb_true_iff in E as [E1 E2]. apply Z.leb_le in E1, E2.
  apply andb_false_iff in H as [H | H]; apply Z.leb_gt in H; lia.
Qed.

Lemma take1_not_digit lo hi c r :
  DT.is_digit c = false -> 48 <= lo -> hi <= 57 ->
  DT.take1 (DT.between lo hi) (String c r) = [].
Proof.
  intros H Hlo Hhi. simpl. now rewrite (not_digit_between lo hi c H Hlo Hhi).
Qed.

Lemma take2_not_digit lo hi q c r :
  DT.is_digit c = false -> 48 <= lo -> hi <= 57 ->
  DT.take2 (DT.between lo hi) q (String c r) = [].
Proof.
  intros H Hlo Hhi. destruct r as [|b r]; simpl; [reflexivity|].
  now rewrite (not_digit_between lo hi c H Hlo Hhi).
Qed.

Lemma take4_not_digit c r :
  DT.is_digit c = false -> DT.take4 (String c r) = [].
Proof.
  intros H. destruct r as [|b [|c' [|d r]]]; simpl; try reflexivity.
  now rewrite H.
Qed.

Lemma strptime_needs_digit c r fmt :
  DT.is_digit c = false -> In fmt fmts ->
  DT.strptime (String c r) fmt = None.
Proof.
  intros H Hin.
  assert (Hm : DT.alternatives DT.D_m DT.no_fields (String c r) = []).
  { unfold DT.alternatives.
    rewrite !take2_not_digit, take1_not_digit by (assumption || lia).
    reflexivity. }
  assert (HY : DT.alternatives DT.D_Y DT.no_fields (String c r) = []).
  { unfold DT.alternatives. now rewrite take4_not_digit. }
  unfold DT.strptime.
  destruct Hin as [<- | [<- | [<- | []]]];
    unfold fmt_mdY, fmt_mdy, fmt_Ymd; cbn [DT.matches];
    rewrite ?Hm, ?HY; reflexivity.
Qed.

Lemma parse_due_not_digit now c r :
  is_keyword (String c r) = false -> DT.is_digit c = false ->
  parse_due now (Some (String c r)) = Err (ValueError (String c r)).
Proof.
  intros Hk Hd. rewrite parse_due_cases, Hk. cbn [Str.is_empty].
  rewrite try_formats_fmts.
  rewrite !strptime_needs_digit; try assumption; unfold fmts; simpl; auto.
Qed.

Lemma isspace_not_digit c : Str.isspace c = true -> DT.is_digit c = false.
Proof.
  unfold Str.isspace, DT.is_digit, DT.between. cbv zeta. lia.
Qed.

Lemma strip_empty_isspace c r :
  Str.strip (String c r) = "" -> Str.isspace c = true.
Proof.
  unfold Str.strip. cbn [Str.lstrip].
  destruct (Str.isspace c) eqn:E; [reflexivity|].
  cbn [Str.rstrip]. rewrite E. discriminate.
Qed.

(** X13. The formats are tried on the text as given, not on the stripped
    one: a text that is not a keyword and does not begin with a digit makes
    [parse_due] raise, a date with a blank in front included; and so does
    any text made of blanks only, which is not taken for a missing date. *)
Theorem parse_due_rejects_leading_non_digit (now : datetime) (c : ascii)
  (r : string) :
  is_keyword (String c r) = false ->
  DT.is_digit c = false ->
  parse_due now (Some (String c r)) = Err (ValueError (String c r))
  /\ (forall raw, raw <> "" -> Str.strip raw = "" ->
        parse_due now (Some raw) = Err (ValueError raw)).
Proof.
  intros Hk Hd. split; [now apply parse_due_not_digit|].
  intros raw Hne Hs. destruct raw as [|a raw]; [congruence|].
  apply parse_due_not_digit.
  - unfold is_keyword. now rewrite Hs.
  - now apply isspace_not_digit, strip_empty_isspace with raw.
Qed.

Lemma parse_due_rejects_leading_non_digit_witness :
  parse_due (Sample.at_time 5) (Some " 1/2/2024")
  = Err (ValueError " 1/2/2024").
Proof.
  apply (proj1 (parse_due_rejects_leading_non_digit (Sample.at_time 5)
                  " "%char "1/2/2024" eq_refl eq_refl)).
Defined.

(* ================================================================== *)
(** * [_sort_open] once more *)

Lemma prio_created_le_not_lt t u :
  prio_created_le t u ->
  prio_created_ltb (key_without_due u) (key_without_due t) = false.
Proof.
  unfold prio_created_le, prio_created_ltb, key_without_due.
  intros [H | [E L]].
  - destruct (Z.eqb_spec (priority u) (priority t)); [lia|].
    apply Z.ltb_ge. lia.
  - rewrite E, Z.eqb_refl. now apply dt_le_not_lt.
Qed.

Lemma due_prio_created_le_not_lt t u :
  due_prio_created_le t u ->
  due_prio_created_ltb (key_with_due u) (key_with_due t) = false.
Proof.
  intros (d & e & Hd & He & H).
  unfold due_prio_created_ltb, key_with_due. rewrite Hd, He.
  destruct H as [H | [-> H]].
  - destruct (DT.eqb e d) eqn:E.
    + apply dt_eqb_spec in E. subst e. unfold dt_lt in H. lia.
    + apply dt_le_not_lt. now left.
  - assert (X : DT.eqb e e = true) by now apply dt_eqb_spec.
    rewrite X. now apply prio_created_le_not_lt.
Qed.

Lemma StronglySorted_impl {A} (R S : A -> A -> Prop) (l : list A) :
  (forall x y, R x y -> S x y) -> StronglySorted R l -> StronglySorted S l.
Proof.
  intros H. induction 1 as [|x r Hr IH Hx]; constructor; [assumption|].
  eapply Forall_impl; [|exact Hx]. intros y. apply H.
Qed.

Lemma with_due_sorted ts :
  StronglySorted due_prio_created_le
    (sort_by due_prio_created_ltb key_with_due (filter has_due ts)).
Proof.
  apply sort_by_sorted with (P := fun t => has_due t = true).
  - exact due_prio_created_le_trans.
  - exact due_prio_created_not_lt.
  - exact due_prio_created_lt.
  - apply Forall_filter_true.
Qed.

Lemma without_due_sorted ts :
  StronglySorted prio_created_le
    (sort_by prio_created_ltb key_without_due
       (filter (fun t => negb (has_due t)) ts)).
Proof.
  apply sort_by_sorted with (P := fun _ => True).
  - exact prio_created_le_trans.
  - intros x y _ _. apply prio_created_not_lt.
  - intros x y _ _. apply prio_created_lt.
  - apply Forall_forall. trivial.
Qed.

Lemma filter_none {A} (f : A -> bool) (l : list A) :
  (forall x, In x l -> f x = false) -> filter f l = [].
Proof.
  induction l as [|x r IH]; simpl; [reflexivity|]. intros H.
  rewrite (H x) by now left. apply IH. intros y Hy. apply H. now right.
Qed.

(** X14. Sorting for display twice changes nothing more: [_sort_open]
    leaves a list it has produced as it is; and it neither drops nor adds
    a task, so the table has as many rows as the list has tasks. *)
Theorem sort_open_idempotent (ts : list Task) :
  _sort_open (_sort_open ts) = _sort_open ts
  /\ List.length (_sort_open ts) = List.length ts
  /\ (forall t, In t (_sort_open ts) <-> In t ts).
Proof.
  assert (Hperm : Permutation ts (_sort_open ts)).
  { unfold _sort_open. rewrite <- !sort_by_perm.
    apply (filter_partition_perm has_due). }
  split; [|split].
  - unfold _sort_open at 2 3. cbv zeta.
    set (a := sort_by due_prio_created_ltb key_with_due (filter has_due ts)).
    set (b := sort_by prio_created_ltb key_without_due
                (filter (fun t => negb (has_due t)) ts)).
    assert (Ha : forall t, In t a -> has_due t = true).
    { intros t Ht. eapply Permutation_in in Ht;
        [|symmetry; apply sort_by_perm]. now apply filter_In in Ht. }
    assert (Hb : forall t, In t b -> has_due t = false).
    { intros t Ht. eapply Permutation_in in Ht;
        [|symmetry; apply sort_by_perm].
      apply filter_In in Ht as [_ Ht]. now apply negb_true_iff. }
    unfold _sort_open. rewrite !filter_app.
    rewrite (filter_all_in has_due a Ha), (filter_none has_due b Hb).
    rewrite (filter_none (fun t => negb (has_due t)) a),
      (filter_all_in (fun t => negb (has_due t)) b).
    + rewrite app_nil_r. simpl app. f_equal; apply sort_by_sorted_id.
      * eapply StronglySorted_impl; [|apply with_due_sorted].
        apply due_prio_created_le_not_lt.
      * eapply StronglySorted_impl; [|apply without_due_sorted].
        apply prio_created_le_not_lt.
    + intros t Ht. now rewrite (Hb t Ht).
    + intros t Ht. now rewrite (Ha t Ht).
  - symmetry. now apply Permutation_length.
  - intros t. split; apply Permutation_in; [symmetry|]; exact Hperm.
Qed.

(* ================================================================== *)
(** * Runs of the program *)

Lemma init_start d :
  Tasks.__init__ (mkState [] 1 d) = Returned tt (Tasks.start d).
Proof. destruct d as [[| |l last] w]; reflexivity. Qed.

(** [main] after the store is built, for a command that changes nothing. *)
Lemma main_read_only args clock d :
  arg_add args = None -> arg_delete args = None -> arg_done args = None ->
  arg_reset args = false ->
  final (main args clock (mkState [] 1 d)) = Tasks.start d.
Proof.
  intros Ha Hd Hdn Hr. unfold main, bind. rewrite init_start, Ha, Hd, Hdn, Hr.
  destruct (arg_list args).
  { now destruct (Tasks.list false (Tasks.start d)). }
  destruct (arg_report args).
  { now destruct (Tasks.list true (Tasks.start d)). }
  destruct (arg_query args) as [texts|]; [|reflexivity].
  unfold main_query.
  destruct (truthy (arg_due_before args)) as [rb|];
    [destruct (parse_due (clock 0%nat) (Some rb)); [|reflexivity]|];
    (destruct (truthy (arg_due_after args)) as [ra|];
     [match goal with
      | |- context [parse_due ?n (Some ra)] =>
          destruct (parse_due n (Some ra)); [|reflexivity]
      end|]);
    match goal with
    | |- context [Tasks.query ?a ?b ?c ?e ?f ?g] =>
        now destruct (Tasks.query a b c e f g)
    end.
Qed.

Lemma invocation_disk args clock d :
  snd (invocation args clock d)
  = Tasks.at_exit (final (main args clock (mkState [] 1 d))).
Proof.
  unfold invocation.
  destruct (main args clock (mkState [] 1 d)) as [[st out] s | e s];
    reflexivity.
Qed.

(** X15. A run of [list], [report] or [query] only reads the store, but
    the exit hook still saves what was loaded.  On a disk that cannot be
    written, and on a writable disk whose file is a sorted list stored with
    its own highest id (what the program writes), the disk is left as it
    was.  On a writable disk with no data file the run creates one holding
    the empty list, and a file that cannot be read is replaced by that
    empty one. *)
Theorem read_only_run_and_exit_hook (args : Args) (clock : nat -> datetime)
  (d : Disk) :
  arg_add args = None -> arg_delete args = None -> arg_done args = None ->
  arg_reset args = false ->
  let d' := snd (invocation args clock d) in
  d' = Tasks.at_exit (Tasks.start d)
  /\ (writable d = false -> d' = d)
  /\ (forall l, d = mkDisk (Pickled l (Tasks.last_id_of l)) true ->
        sorted_by_created l -> d' = d)
  /\ (writable d = true -> file d = NoFile \/ file d = Unreadable ->
      d' = mkDisk (Pickled [] 0) true).
Proof.
  intros Ha Hd Hdn Hr. cbv zeta.
  rewrite invocation_disk, main_read_only by assumption.
  rewrite at_exit_effect, start_disk.
  split; [reflexivity|]. split; [|split].
  - intros W. now rewrite W.
  - intros l -> Hs. simpl writable. cbv iota.
    now rewrite (start_pickled l _ true Hs).
  - intros W [F | F]; rewrite W, start_effect, F; reflexivity.
Qed.

Lemma read_only_run_and_exit_hook_witness :
  snd (invocation Sample.list_command Sample.clock Sample.new_disk)
  = mkDisk (Pickled [] 0) true.
Proof.
  destruct (read_only_run_and_exit_hook Sample.list_command Sample.clock
              Sample.new_disk eq_refl eq_refl eq_refl eq_refl)
    as (_ & _ & _ & H).
  apply H; [reflexivity | now left].
Defined.

(** X16. The add command refuses a description that is empty or made of
    digits only once stripped, and a due date that [parse_due] rejects:
    the run ends with status 1 and the error message, no task is made and
    no id is used up. *)
Theorem add_command_rejects (args : Args) (clock : nat -> datetime)
  (d : Disk) (title : string) :
  arg_add args = Some title ->
  Str.is_empty (Str.strip title) = true
  \/ Str.isdigit (Str.strip title) = true
  \/ (exists raw e, truthy (arg_due args) = Some raw
                    /\ parse_due (clock 0%nat) (Some raw) = Err e) ->
  invocation args clock d
  = (1, Error_creating, Tasks.at_exit (Tasks.start d))
  /\ main args clock (mkState [] 1 d)
     = Returned (1, Error_creating) (Tasks.start d).
Proof.
  intros Ha Hbad.
  assert (Hm : main args clock (mkState [] 1 d)
               = Returned (1, Error_creating) (Tasks.start d)).
  { unfold main, bind. rewrite init_start, Ha. unfold main_add.
    destruct (Str.is_empty (Str.strip title)) eqn:E1; [reflexivity|].
    destruct (Str.isdigit (Str.strip title)) eqn:E2; [reflexivity|].
    destruct Hbad as [H | [H | (raw & e & Ht & Hp)]]; try discriminate.
    cbn [orb]. now rewrite Ht, Hp. }
  split; [|exact Hm]. unfold invocation. now rewrite Hm.
Qed.

Lemma add_command_rejects_witness :
  invocation (Sample.add_command " 2024 " None) Sample.clock Sample.new_disk
  = (1, Error_creating, mkDisk (Pickled [] 0) true).
Proof.
  apply (add_command_rejects (Sample.add_command " 2024 " None) Sample.clock
           Sample.new_disk " 2024 " eq_refl).
  right. left. reflexivity.
Defined.

Lemma main_add_accepts args clock d title due now :
  arg_add args = Some title ->
  Str.is_empty (Str.strip title) = false ->
  Str.isdigit (Str.strip title) = false ->
  match truthy (arg_due args) with
  | Some raw => parse_due (clock 0%nat) (Some raw) = Ok due
                /\ now = clock 1%nat
  | None => due = None /\ now = clock 0%nat
  end ->
  main args clock (mkState [] 1 d)
  = match Tasks.add (Str.strip title) (arg_priority args) due now
            (Tasks.start d) with
    | Returned t s' => Returned (0, Created_task (unique_id t)) s'
    | Raised _ s' => Returned (1, Error_creating) s'
    end.
Proof.
  intros Ha E1 E2 Hdue. unfold main, bind. rewrite init_start, Ha.
  unfold main_add. rewrite E1, E2. cbn [orb].
  destruct (truthy (arg_due args)) as [raw|].
  - destruct Hdue as [-> ->]. reflexivity.
  - destruct Hdue as [-> ->]. reflexivity.
Qed.

Lemma main_list args clock d :
  arg_add args = None -> arg_delete args = None -> arg_done args = None ->
  arg_list args = true ->
  main args clock (mkState [] 1 d)
  = match Tasks.list false (Tasks.start d) with
    | [] => Returned (0, No_tasks) (Tasks.start d)
    | _ :: _ =>
        Returned (0, Open_table (_sort_open (Tasks.list false (Tasks.start d))))
                 (Tasks.start d)
    end.
Proof.
  intros Ha Hd Hdn Hl. unfold main, bind.
  rewrite init_start, Ha, Hd, Hdn, Hl.
  now destruct (Tasks.list false (Tasks.start d)).
Qed.

Lemma sort_open_in ts t : In t (_sort_open ts) <-> In t ts.
Proof.
  assert (Hperm : Permutation ts (_sort_open ts)).
  { unfold _sort_open. rewrite <- !sort_by_perm.
    apply (filter_partition_perm has_due). }
  split; apply Permutation_in; [symmetry|]; exact Hperm.
Qed.

(** X17. What the add command stores, the next run lists.  On a writable
    disk, an accepted add (a description that is not empty and not all
    digits once stripped, a due date that parses or none) ends with status
    0 and reports the new id; the list command of the following run prints
    a table with a row of that id, the stripped description, the priority
    and the due date given, and leaves the disk as the add left it. *)
Theorem add_then_list (args largs : Args) (clock clock' : nat -> datetime)
  (d : Disk) (title : string) (due : option datetime) (now : datetime) :
  writable d = true ->
  arg_add args = Some title ->
  Str.is_empty (Str.strip title) = false ->
  Str.isdigit (Str.strip title) = false ->
  match truthy (arg_due args) with
  | Some raw => parse_due (clock 0%nat) (Some raw) = Ok due
                /\ now = clock 1%nat
  | None => due = None /\ now = clock 0%nat
  end ->
  arg_add largs = None -> arg_delete largs = None ->
  arg_done largs = None -> arg_list largs = true ->
  exists i d1 rows t,
    invocation args clock d = (0, Created_task i, d1)
    /\ i = _id_counter (Tasks.start d)
    /\ invocation largs clock' d1 = (0, Open_table rows, d1)
    /\ In t rows
    /\ unique_id t = i /\ name t = Str.strip title
    /\ priority t = coerce_priority (arg_priority args)
    /\ due_date t = due /\ created t = now /\ completed t = None.
Proof.
  intros W Ha E1 E2 Hdue La Ld Ldn Ll.
  set (s0 := Tasks.start d).
  set (t := mkTask now None (Str.strip title) (_id_counter s0)
              (coerce_priority (arg_priority args)) due).
  set (ts := Tasks.by_created (tasks s0 ++ [t])).
  set (d1 := mkDisk (Pickled ts (Tasks.last_id_of ts)) true).
  assert (Hsorted : sorted_by_created ts) by apply by_created_sorted.
  assert (Hin : In t ts).
  { eapply Permutation_in; [apply by_created_perm|].
    apply in_or_app. right. now left. }
  exists (_id_counter s0), d1, (_sort_open (Tasks.list false (Tasks.start d1))), t.
  assert (H1 : invocation args clock d
               = (0, Created_task (_id_counter s0), d1)).
  { unfold invocation.
    rewrite (main_add_accepts args clock d title due now Ha E1 E2 Hdue).
    fold s0. rewrite add_effect. cbv zeta.
    replace (writable (disk s0)) with true
      by (unfold s0; now rewrite start_disk).
    fold t. fold ts. rewrite at_exit_effect. reflexivity. }
  assert (Hts : tasks (Tasks.start d1) = ts).
  { unfold d1. now apply start_pickled. }
  assert (Hopen : In t (Tasks.list false (Tasks.start d1))).
  { unfold Tasks.list. rewrite Hts. apply filter_In. split; [exact Hin|].
    reflexivity. }
  split; [exact H1|]. split; [reflexivity|].
  split; [|split; [now apply sort_open_in|repeat split]].
  unfold invocation. rewrite (main_list largs clock' d1 La Ld Ldn Ll).
  destruct (Tasks.list false (Tasks.start d1)) as [|u r] eqn:E;
    [destruct Hopen|].
  rewrite at_exit_effect, start_disk. unfold d1 at 1. simpl writable.
  cbv iota. rewrite Hts. reflexivity.
Qed.

Lemma add_then_list_witness :
  exists i d1 rows t,
    invocation (Sample.add_command " Buy milk " None) Sample.clock
      Sample.new_disk = (0, Created_task i, d1)
    /\ invocation Sample.list_command Sample.clock d1
       = (0, Open_table rows, d1)
    /\ In t rows /\ unique_id t = i /\ name t = "Buy milk".
Proof.
  destruct (add_then_list (Sample.add_command " Buy milk " None)
              Sample.list_command Sample.clock Sample.clock Sample.new_disk
              " Buy milk " None (Sample.clock 0%nat)
              eq_refl eq_refl eq_refl eq_refl (conj eq_refl eq_refl)
              eq_refl eq_refl eq_refl eq_refl)
    as (i & d1 & rows & t & H1 & _ & H2 & H3 & H4 & H5 & _).
  exists i, d1, rows, t. repeat split; assumption.
Defined.

(** X18. The exit status of the delete and done commands.  With no task
    of that id in the loaded store the run prints that the task was not
    found and ends with status 1.  With such a task, on a writable disk,
    it ends with status 0 and the data file holds the list without the
    task, or with the task completed; on a disk that cannot be written the
    [OSError] of the save is not caught and ends the run with status 1. *)
Theorem delete_and_done_status (args : Args) (clock : nat -> datetime)
  (d : Disk) (i : Z) :
  arg_add args = None ->
  (arg_delete args = Some i
   \/ (arg_delete args = None /\ arg_done args = Some i)) ->
  let s0 := Tasks.start d in
  let found := exists t, In t (tasks s0) /\ unique_id t = i in
  let '(status, out, d') := invocation args clock d in
  (~ found -> status = 1 /\ out = Task_not_found
              /\ d' = Tasks.at_exit s0)
  /\ (found -> writable d = true ->
      status = 0
      /\ ((arg_delete args = Some i ->
           out = Deleted_task i
           /\ file d' = Pickled (Tasks.remove_first i (tasks s0))
                          (Tasks.last_id_of
                             (Tasks.remove_first i (tasks s0))))
          /\ (arg_delete args = None ->
              out = Completed_task i
              /\ exists t, find (Tasks.has_id i) (tasks s0) = Some t
                 /\ (completed t = None ->
                     file d' = Pickled
                       (Tasks.mark_first i (clock 0%nat) (tasks s0))
                       (Tasks.last_id_of
                          (Tasks.mark_first i (clock 0%nat) (tasks s0))))
                 /\ (completed t <> None ->
                     d' = Tasks.at_exit s0))))
  /\ (found -> writable d = false ->
      d' = d
      /\ (arg_delete args = Some i ->
          status = 1 /\ out = Traceback OSError)).
Proof.
  intros Ha Hcmd. cbv zeta.
  unfold invocation, main, bind. rewrite init_start, Ha.
  assert (Hdisk : disk (Tasks.start d) = d) by apply start_disk.
  destruct (Tasks.start d) as [ts n d0]. simpl in Hdisk. subst d0.
  cbn [tasks].
  assert (Hfind : (exists t, In t ts /\ unique_id t = i)
                  <-> find (Tasks.has_id i) ts <> None).
  { pose proof (find_none_no_id i ts) as H.
    destruct (find (Tasks.has_id i) ts) as [t|] eqn:F.
    - split; [discriminate|]. intros _. exists t. now apply find_has_id.
    - split; [|congruence]. intros Hex. exfalso. now apply (proj1 H). }
  destruct d as [f w].
  destruct Hcmd as [Hd | [Hd Hdn]]; rewrite Hd; [|rewrite Hdn].
  - rewrite delete_effect. cbn [tasks disk writable _id_counter].
    destruct (find (Tasks.has_id i) ts) as [t|] eqn:F.
    + assert (Hex : exists t, In t ts /\ unique_id t = i)
        by (apply Hfind; discriminate).
      destruct w; simpl.
      * split; [tauto|]. split; [|discriminate].
        intros _ _. split; [reflexivity|].
        split; [intros _; split; reflexivity | discriminate].
      * split; [tauto|]. split; [discriminate|].
        intros _ _. split; [reflexivity|]. intros _. split; reflexivity.
    + assert (Hno : ~ exists t, In t ts /\ unique_id t = i)
        by (intros H; apply Hfind in H; congruence).
      simpl. split; [intros _; repeat split|]. split; tauto.
  - rewrite done_effect. cbn [tasks disk writable _id_counter].
    destruct (find (Tasks.has_id i) ts) as [t|] eqn:F.
    + assert (Hex : exists t, In t ts /\ unique_id t = i)
        by (apply Hfind; discriminate).
      destruct (completed t) eqn:C.
      * simpl. split; [tauto|]. split.
        -- intros _ ->. split; [reflexivity|].
           split; [discriminate|]. intros _. split; [reflexivity|].
           exists t. split; [reflexivity|]. rewrite C.
           split; [discriminate | reflexivity].
        -- intros _ ->. split; [reflexivity | discriminate].
      * destruct w; simpl.
        -- split; [tauto|]. split; [|discriminate].
           intros _ _. split; [reflexivity|].
           split; [discriminate|]. intros _. split; [reflexivity|].
           exists t. split; [reflexivity|]. rewrite C.
           split; [reflexivity | congruence].
        -- split; [tauto|]. split; [discriminate|].
           intros _ _. split; [reflexivity | discriminate].
    + assert (Hno : ~ exists t, In t ts /\ unique_id t = i)
        by (intros H; apply Hfind in H; congruence).
      simpl. split; [intros _; repeat split|]. split; tauto.
Qed.

Lemma delete_and_done_status_witness :
  fst (invocation (Sample.delete_command 7) Sample.clock
         (disk Sample.two_tasks))
  = (1, Task_not_found).
Proof.
  pose proof (delete_and_done_status (Sample.delete_command 7) Sample.clock
                (disk Sample.two_tasks) 7 eq_refl (or_introl eq_refl)) as H.
  cbv zeta in H.
  destruct (invocation (Sample.delete_command 7) Sample.clock
              (disk Sample.two_tasks)) as [[st out] d'].
  destruct H as (H & _).
  destruct H as (-> & -> & _); [|reflexivity].
  intros (t & Hin & Hid). simpl in Hin.
  destruct Hin as [<- | [<- | []]]; discriminate.
Defined.

(** X19. The tables of the list and report commands.  The list command
    prints "no tasks" exactly when no task is open, and otherwise a table
    whose rows are the open tasks of the data file, each once; the report
    command does the same with all the tasks.  The rows are in the order
    of [_sort_open], and both runs end with status 0. *)
Theorem list_and_report_tables (args : Args) (clock : nat -> datetime)
  (d : Disk) :
  arg_add args = None -> arg_delete args = None -> arg_done args = None ->
  arg_list args = true \/ arg_report args = true ->
  let shown :=
    if arg_list args then Tasks.list false (Tasks.start d)
    else tasks (Tasks.start d) in
  let '(status, out, _) := invocation args clock d in
  status = 0
  /\ (shown = [] -> out = No_tasks)
  /\ (shown <> [] ->
      exists rows,
        out = (if arg_list args then Open_table rows else Report_table rows)
        /\ rows = _sort_open shown
        /\ Permutation shown rows
        /\ (forall t, In t rows <->
              In t (tasks (Tasks.start d))
              /\ (arg_list args = true -> completed t = None))).
Proof.
  intros Ha Hd Hdn Hcmd. cbv zeta.
  assert (Hperm : forall l, Permutation l (_sort_open l)).
  { intros l. unfold _sort_open. rewrite <- !sort_by_perm.
    apply (filter_partition_perm has_due). }
  unfold invocation, main, bind. rewrite init_start, Ha, Hd, Hdn.
  destruct (arg_list args) eqn:L.
  - destruct (Tasks.list false (Tasks.start d)) as [|u r] eqn:E.
    + split; [reflexivity|]. split; [reflexivity | congruence].
    + split; [reflexivity|]. split; [discriminate|]. intros _.
      eexists. split; [reflexivity|]. split; [reflexivity|].
      split; [apply Hperm|]. intros t. rewrite sort_open_in, <- E.
      unfold Tasks.list. rewrite filter_In. unfold Tasks.is_completed.
      destruct (completed t); simpl; intuition congruence.
  - destruct Hcmd as [Hc | Hc]; [discriminate|]. rewrite Hc.
    change (Tasks.list true (Tasks.start d)) with (tasks (Tasks.start d)).
    destruct (tasks (Tasks.start d)) as [|u r] eqn:E.
    + split; [reflexivity|]. split; [reflexivity | congruence].
    + split; [reflexivity|]. split; [discriminate|]. intros _.
      eexists. split; [reflexivity|]. split; [reflexivity|].
      split; [apply Hperm|]. intros t. rewrite sort_open_in.
      intuition discriminate.
Qed.

Lemma list_and_report_tables_witness :
  fst (invocation Sample.list_command Sample.clock (disk Sample.two_tasks))
  = (0, Open_table [Sample.milk]).
Proof.
  pose proof (list_and_report_tables Sample.list_command Sample.clock
                (disk Sample.two_tasks) eq_refl eq_refl eq_refl
                (or_introl eq_refl)) as H.
  cbv zeta in H.
  destruct (invocation Sample.list_command Sample.clock
              (disk Sample.two_tasks)) as [[st out] d'].
  destruct H as (-> & _ & H).
  destruct H as (rows & -> & -> & _); [discriminate|].
  reflexivity.
Defined.

(** X20. The query command shows open tasks only.  With bounds that parse
    (or none), it ends with status 0 and prints "(no matches)" or a table
    whose rows are exactly the tasks that [query] returns for the texts,
    the priority when given on the command line, the bounds and
    [completed=False], so every row is an open task of the data file whose
    name contains one of the texts, letter case apart.  A bound that
    [parse_due] rejects ends the run with status 1: the [ValueError] is
    not caught. *)
Theorem query_command_rows (args : Args) (clock : nat -> datetime)
  (d : Disk) (texts : list string) :
  arg_add args = None -> arg_delete args = None -> arg_done args = None ->
  arg_list args = false -> arg_report args = false ->
  arg_query args = Some texts ->
  let s0 := Tasks.start d in
  let '(status, out, _) := invocation args clock d in
  (forall raw e, truthy (arg_due_before args) = Some raw ->
     parse_due (clock 0%nat) (Some raw) = Err e ->
     status = 1 /\ out = Traceback e)
  /\ (truthy (arg_due_before args) = None ->
      truthy (arg_due_after args) = None ->
      status = 0
      /\ exists found,
           found = Tasks.query (Some texts)
                     (if priority_given args then Some (arg_priority args)
                      else None) None None (Some false) s0
           /\ (found = [] -> out = No_matches)
           /\ (found <> [] -> out = Open_table (_sort_open found))
           /\ (forall t, In t found ->
                 In t (tasks s0) /\ completed t = None
                 /\ Spec.text_ok (Some texts) t = true)
           /\ (priority_given args = false ->
               forall t, In t (tasks s0) -> completed t = None ->
                 Spec.text_ok (Some texts) t = true -> In t found)).
Proof.
  intros Ha Hd Hdn Hl Hr Hq. cbv zeta.
  unfold invocation, main, bind.
  rewrite init_start, Ha, Hd, Hdn, Hl, Hr, Hq. unfold main_query.
  destruct (truthy (arg_due_before args)) as [rb|] eqn:B.
  - destruct (parse_due (clock 0%nat) (Some rb)) as [db | e] eqn:P.
    + destruct (truthy (arg_due_after args)) as [ra|];
        [destruct (parse_due (clock 1%nat) (Some ra))|];
        try match goal with
            | |- context [Tasks.query ?a ?b ?c ?e ?f ?g] =>
                destruct (Tasks.query a b c e f g)
            end;
        (split; [intros raw e' [= <-]; congruence | discriminate]).
    + split; [|discriminate]. intros raw e' Heq H.
      assert (E : e = e') by congruence. subst e'. split; reflexivity.
  - destruct (truthy (arg_due_after args)) as [ra|] eqn:A.
    { destruct (parse_due (clock 0%nat) (Some ra));
        try match goal with
            | |- context [Tasks.query ?a ?b ?c ?e ?f ?g] =>
                destruct (Tasks.query a b c e f g)
            end; (split; discriminate). }
    cbv beta iota zeta.
    set (found := Tasks.query (Some texts)
                    (if priority_given args then Some (arg_priority args)
                     else None) None None (Some false) (Tasks.start d)).
    assert (Hin : forall t, In t found ->
              In t (tasks (Tasks.start d)) /\ completed t = None
              /\ Spec.text_ok (Some texts) t = true).
    { intros t Ht. unfold found in Ht.
      rewrite query_filter, filter_In in Ht. destruct Ht as [Ht Hs].
      unfold Spec.satisfies in Hs. rewrite !andb_true_iff in Hs.
      destruct Hs as [[[[H1 _] _] _] H5]. split; [exact Ht|].
      split; [|exact H1]. unfold Spec.completed_ok, Tasks.is_completed in H5.
      destruct (completed t); [discriminate | reflexivity]. }
    assert (Hall : priority_given args = false ->
              forall t, In t (tasks (Tasks.start d)) -> completed t = None ->
                Spec.text_ok (Some texts) t = true -> In t found).
    { intros G t Ht Hc Htx. unfold found. rewrite G, query_filter, filter_In.
      split; [exact Ht|]. unfold Spec.satisfies. rewrite Htx.
      unfold Spec.completed_ok, Tasks.is_completed. now rewrite Hc. }
    clearbody found.
    destruct found as [|u r].
    + split; [discriminate|]. intros _ _. split; [reflexivity|].
      exists []. repeat split; try assumption; try congruence;
        now apply Hin.
    + split; [discriminate|]. intros _ _. split; [reflexivity|].
      exists (u :: r).
      repeat split; try assumption; try discriminate;
        now apply Hin.
Qed.

Lemma query_command_rows_witness :
  fst (invocation (Sample.query_command ["MILK"]) Sample.clock
         (disk Sample.two_tasks))
  = (0, Open_table [Sample.milk]).
Proof.
  pose proof (query_command_rows (Sample.query_command ["MILK"])
                Sample.clock (disk Sample.two_tasks) ["MILK"]
                eq_refl eq_refl eq_refl eq_refl eq_refl eq_refl) as H.
  cbv zeta in H.
  destruct (invocation (Sample.query_command ["MILK"]) Sample.clock
              (disk Sample.two_tasks)) as [[st out] d'].
  destruct H as (_ & H). destruct (H eq_refl eq_refl)
    as (-> & found & -> & _ & Hrows & _).
  rewrite Hrows; [reflexivity | discriminate].
Defined.

(** X21. The reset command on a writable disk ends with status 0 and,
    after the exit hook, leaves a data file holding the empty list with
    last id 0, from which the next run starts empty with next id 1.  On a
    disk that cannot be written the disk stays as it was: with a data file
    there, removing it raises, the run ends with status 1 and the next run
    loads the old tasks again. *)
Theorem reset_command (args : Args) (clock : nat -> datetime) (d : Disk) :
  arg_add args = None -> arg_delete args = None -> arg_done args = None ->
  arg_list args = false -> arg_report args = false ->
  arg_query args = None -> arg_reset args = true ->
  let '(status, out, d') := invocation args clock d in
  (writable d = true ->
   status = 0 /\ out = All_deleted
   /\ d' = mkDisk (Pickled [] 0) true
   /\ Tasks.start d' = mkState [] 1 d')
  /\ (writable d = false ->
      d' = d
      /\ (file d = NoFile -> status = 0 /\ out = All_deleted)
      /\ (file d <> NoFile -> status = 1 /\ out = Traceback OSError)).
Proof.
  intros Ha Hd Hdn Hl Hr Hq Hreset.
  unfold invocation, main, bind.
  rewrite init_start, Ha, Hd, Hdn, Hl, Hr, Hq, Hreset, reset_effect.
  rewrite start_disk. destruct d as [f w].
  cbn [file writable].
  destruct f as [| |l last]; destruct w; simpl;
    (split; [try discriminate; intros _; repeat split|]);
    try discriminate; intros _;
    (split; [reflexivity|]); split; try congruence;
    intros _; split; reflexivity.
Qed.

Lemma reset_command_witness :
  invocation (mkArgs true None None false false None None 1 None None None
                false)
    Sample.clock (disk Sample.two_tasks)
  = (0, All_deleted, mkDisk (Pickled [] 0) true).
Proof.
  pose proof (reset_command
                (mkArgs true None None false false None None 1 None None
                   None false)
                Sample.clock (disk Sample.two_tasks)
                eq_refl eq_refl eq_refl eq_refl eq_refl eq_refl eq_refl)
    as H.
  destruct (invocation _ Sample.clock (disk Sample.two_tasks))
    as [[st out] d'].
  destruct H as (H & _). destruct (H eq_refl) as (-> & -> & -> & _).
  reflexivity.
Defined.

(* ================================================================== *)
(** * The calendar: from a day ordinal back to the date *)

(** Goals about quotients and remainders by constants. *)
Ltac by_division := Z.div_mod_to_equations; lia.

(** Decide the tests [_ mod _ =? 0] of a leap-year condition. *)
Ltac split_mod_tests :=
  repeat match goal with
         | |- context [?a mod ?b =? 0] => destruct (Z.eqb_spec (a mod b) 0)
         end.

(** Every day number of a common year (year 1) and of a leap year
    (year 4), by computation. *)
Lemma month_day_checked :
  forallb (fun k => month_day_ok 1 (Z.of_nat k) && month_day_ok 4 (Z.of_nat k))
          (seq 0 365) = true.
Proof. vm_compute. reflexivity. Qed.

Lemma days_in_month_leap y y' m :
  DT.is_leap y = DT.is_leap y' -> DT.days_in_month y m = DT.days_in_month y' m.
Proof. unfold DT.days_in_month. now intros ->. Qed.

Lemma days_before_month_leap y y' m :
  DT.is_leap y = DT.is_leap y' ->
  DT.days_before_month y m = DT.days_before_month y' m.
Proof. unfold DT.days_before_month. now intros ->. Qed.

Lemma month_day_spec y n :
  0 <= n < 365 ->
  let '(m, d) := DT.month_day n (DT.is_leap y) in
  1 <= m <= 12 /\ 1 <= d <= DT.days_in_month y m
  /\ DT.days_before_month y m + d = n + 1.
Proof.
  intros Hn.
  pose proof month_day_checked as H. rewrite forallb_forall in H.
  specialize (H (Z.to_nat n)).
  rewrite Z2Nat.id in H by lia.
  assert (Hin : In (Z.to_nat n) (seq 0 365)) by (apply in_seq; lia).
  apply H in Hin. apply andb_true_iff in Hin as [H1 H4].
  assert (Hy : exists y0, (y0 = 1 \/ y0 = 4) /\ DT.is_leap y = DT.is_leap y0).
  { destruct (DT.is_leap y); [exists 4 | exists 1]; split; auto. }
  destruct Hy as (y0 & Hy0 & E).
  assert (Hok : month_day_ok y0 n = true) by (destruct Hy0; subst; assumption).
  unfold month_day_ok in Hok. rewrite <- E in Hok.
  destruct (DT.month_day n (DT.is_leap y)) as [m d].
  rewrite (days_in_month_leap y y0 m E), (days_before_month_leap y y0 m E).
  rewrite !andb_true_iff in Hok. lia.
Qed.

Lemma ord2ymd_spec n :
  1 <= n <= 3652059 ->
  let '(y, m, d) := DT.ord2ymd n in
  1 <= y <= 9999 /\ 1 <= m <= 12 /\ 1 <= d <= DT.days_in_month y m
  /\ DT.days_before_year y + DT.days_before_month y m + d = n
  /\ (364878 <= n -> 1000 <= y).
Proof.
  intros Hn. unfold DT.ord2ymd. cbv zeta.
  set (N := n - 1).
  set (n400 := N / 146097). set (r400 := N mod 146097).
  set (n100 := r400 / 36524). set (r100 := r400 mod 36524).
  set (n4 := r100 / 1461). set (r4 := r100 mod 1461).
  set (n1 := r4 / 365). set (r1 := r4 mod 365).
  assert (H400 : N = 146097 * n400 + r400 /\ 0 <= r400 < 146097).
  { subst n400 r400. pose proof (Z.div_mod N 146097).
    pose proof (Z.mod_pos_bound N 146097). lia. }
  assert (H100 : r400 = 36524 * n100 + r100 /\ 0 <= r100 < 36524).
  { subst n100 r100. pose proof (Z.div_mod r400 36524).
    pose proof (Z.mod_pos_bound r400 36524). lia. }
  assert (H4 : r100 = 1461 * n4 + r4 /\ 0 <= r4 < 1461).
  { subst n4 r4. pose proof (Z.div_mod r100 1461).
    pose proof (Z.mod_pos_bound r100 1461). lia. }
  assert (H1 : r4 = 365 * n1 + r1 /\ 0 <= r1 < 365).
  { subst n1 r1. pose proof (Z.div_mod r4 365).
    pose proof (Z.mod_pos_bound r4 365). lia. }
  clearbody n400 r400 n100 r100 n4 r4 n1 r1.
  assert (HN : 0 <= N <= 3652058) by (subst N; lia).
  assert (B400 : 0 <= n400 <= 24) by lia.
  assert (B100 : 0 <= n100 <= 4) by lia.
  assert (B4 : 0 <= n4 <= 24) by lia.
  assert (B1 : 0 <= n1 <= 4) by lia.
  destruct ((n1 =? 4) || (n100 =? 4)) eqn:Edge.
  - (* the last day of a leap year *)
    set (y := n400 * 400 + 1 + n100 * 100 + n4 * 4 + n1 - 1).
    assert (Hcase : (n100 = 4 /\ r100 = 0 /\ n4 = 0 /\ n1 = 0 /\ r1 = 0)
                    \/ (n100 <= 3 /\ n1 = 4 /\ r1 = 0 /\ n4 <= 23)).
    { apply orb_true_iff in Edge as [E | E]; apply Z.eqb_eq in E; lia. }
    assert (Hleap : DT.is_leap y = true).
    { unfold DT.is_leap. subst y.
      split_mod_tests; simpl; try reflexivity; exfalso; by_division. }
    assert (Hdby : DT.days_before_year y + 366 = n).
    { unfold DT.days_before_year. subst y N. cbv zeta. by_division. }
    unfold DT.days_in_month, DT.days_before_month. rewrite Hleap.
    change (12 =? 2) with false. change (2 <? 12) with true.
    match goal with
    | |- context [nth ?k ?l 0] =>
        let v := eval vm_compute in (nth k l 0) in
        change (nth k l 0) with v
    end.
    cbv iota.
    change ((12 =? 4) || (12 =? 6) || (12 =? 9) || (12 =? 11)) with false.
    change (true && true) with true. cbv iota.
    subst y N. destruct Hcase as [Hc | Hc]; repeat split; lia.
  - apply orb_false_iff in Edge as [E1 E100].
    apply Z.eqb_neq in E1, E100.
    set (y := n400 * 400 + 1 + n100 * 100 + n4 * 4 + n1).
    assert (Hleap : (n1 =? 3) && (negb (n4 =? 24) || (n100 =? 3))
                    = DT.is_leap y).
    { unfold DT.is_leap. subst y.
      destruct (Z.eqb_spec n1 3), (Z.eqb_spec n4 24), (Z.eqb_spec n100 3);
        simpl; split_mod_tests; simpl; try reflexivity; exfalso;
        by_division. }
    rewrite Hleap.
    pose proof (month_day_spec y r1 (proj2 H1)) as Hmd.
    destruct (DT.month_day r1 (DT.is_leap y)) as [m d].
    destruct Hmd as (Hm & Hd & Hsum).
    assert (Hdby : DT.days_before_year y
                   = 146097 * n400 + 36524 * n100 + 1461 * n4 + 365 * n1).
    { unfold DT.days_before_year. subst y. cbv zeta. by_division. }
    subst N. repeat split; try lia.
Qed.

(* ================================================================== *)
(** * [_fmt_due] and [parse_due] *)

Lemma code_chr z : 0 <= z < 256 -> Str.code (Str.chr z) = z.
Proof.
  intros H. unfold Str.code, Str.chr.
  rewrite N_ascii_embedding; lia.
Qed.

Lemma digit_char k :
  0 <= k <= 9 ->
  DT.is_digit (Str.chr (48 + k)) = true
  /\ DT.digit_val (Str.chr (48 + k)) = k.
Proof.
  intros H. unfold DT.is_digit, DT.between, DT.digit_val.
  rewrite code_chr by lia. lia.
Qed.

Lemma of_int_four_digits y :
  1000 <= y <= 9999 ->
  exists a b c d,
    0 <= a <= 9 /\ 0 <= b <= 9 /\ 0 <= c <= 9 /\ 0 <= d <= 9
    /\ y = 1000 * a + 100 * b + 10 * c + d
    /\ Str.of_int y
       = String (Str.chr (48 + a)) (String (Str.chr (48 + b))
           (String (Str.chr (48 + c)) (String (Str.chr (48 + d)) ""))).
Proof.
  intros H.
  exists (y / 10 / 10 / 10 mod 10), (y / 10 / 10 mod 10), (y / 10 mod 10),
    (y mod 10).
  repeat (split; [by_division|]).
  unfold Str.of_int.
  replace (y <? 0) with false by lia.
  replace (S (Z.to_nat y)) with (4 + (Z.to_nat y - 3))%nat by lia.
  cbn [Nat.add Str.digits].
  replace (y <? 10) with false by lia.
  replace (y / 10 <? 10) with false
    by (symmetry; apply Z.ltb_ge; by_division).
  replace (y / 10 / 10 <? 10) with false
    by (symmetry; apply Z.ltb_ge; by_division).
  replace (y / 10 / 10 / 10 <? 10) with true
    by (symmetry; apply Z.ltb_lt; by_division).
  reflexivity.
Qed.

Lemma month_step m k f rest :
  1 <= m <= 12 ->
  DT.matches (DT.D_m :: DT.D_lit "/" :: k) f
    (Str.of_int m ++ String "/" rest)%string
  = DT.matches k (DT.mkFields (DT.f_year f) m (DT.f_day f)) rest.
Proof.
  intros H.
  assert (Hc : m = 1 \/ m = 2 \/ m = 3 \/ m = 4 \/ m = 5 \/ m = 6 \/ m = 7
               \/ m = 8 \/ m = 9 \/ m = 10 \/ m = 11 \/ m = 12) by lia.
  repeat (destruct Hc as [-> | Hc]); try subst m;
    match goal with
    | |- context [Str.of_int ?x] =>
        let v := eval vm_compute in (Str.of_int x) in
        change (Str.of_int x) with v
    end;
    cbn; rewrite ?app_nil_r; reflexivity.
Qed.

Lemma day_step d k f rest :
  1 <= d <= 31 ->
  DT.matches (DT.D_d :: DT.D_lit "/" :: k) f
    (Str.of_int d ++ String "/" rest)%string
  = DT.matches k (DT.mkFields (DT.f_year f) (DT.f_month f) d) rest.
Proof.
  intros H.
  assert (Hc : exists n, (n < 31)%nat /\ d = Z.of_nat (S n)).
  { exists (Z.to_nat (d - 1)). lia. }
  destruct Hc as (n & Hn & ->).
  do 31 (destruct n as [|n];
         [match goal with
          | |- context [Str.of_int ?x] =>
              let v := eval vm_compute in (Str.of_int x) in
              change (Str.of_int x) with v
          end; cbn; rewrite ?app_nil_r; reflexivity|]).
  lia.
Qed.

Lemma year_step y f :
  1000 <= y <= 9999 ->
  DT.matches [DT.D_Y] f (Str.of_int y)
  = [(DT.mkFields y (DT.f_month f) (DT.f_day f), "")].
Proof.
  intros H.
  destruct (of_int_four_digits y H)
    as (a & b & c & d & Ha & Hb & Hc & Hd & Hy & ->).
  destruct (digit_char a Ha) as [A1 A2]. destruct (digit_char b Hb) as [B1 B2].
  destruct (digit_char c Hc) as [C1 C2]. destruct (digit_char d Hd) as [D1 D2].
  cbn [DT.matches DT.alternatives DT.take4].
  rewrite A1, B1, C1, D1, A2, B2, C2, D2. cbn -[Z.add Z.mul].
  now rewrite <- Hy.
Qed.

Lemma strptime_fmt y m d :
  1000 <= y <= 9999 -> 1 <= m <= 12 -> 1 <= d <= 31 ->
  DT.strptime
    (Str.of_int m ++ "/" ++ Str.of_int d ++ "/" ++ Str.of_int y)%string
    fmt_mdY
  = DT.of_ymd y m d.
Proof.
  intros Hy Hm Hd. unfold DT.strptime, fmt_mdY.
  change (Str.of_int m ++ "/" ++ Str.of_int d ++ "/" ++ Str.of_int y)%string
    with (Str.of_int m
          ++ String "/" (Str.of_int d ++ String "/" (Str.of_int y)))%string.
  rewrite month_step, day_step, year_step by assumption. reflexivity.
Qed.

(** A text that starts with a digit is no keyword. *)
Lemma lower_char_digit c : DT.is_digit c = true -> Str.lower_char c = c.
Proof.
  unfold DT.is_digit, DT.between, Str.lower_char. cbv zeta. intros H.
  replace (((65 <=? Str.code c) && (Str.code c <=? 90))
           || ((192 <=? Str.code c) && (Str.code c <=? 222)
               && negb (Str.code c =? 215)))
    with false by lia.
  reflexivity.
Qed.

Lemma digit_not_space c : DT.is_digit c = true -> Str.isspace c = false.
Proof. unfold DT.is_digit, DT.between, Str.isspace. cbv zeta. lia. Qed.

Lemma eqb_first_char c r k s :
  Ascii.eqb c k = false -> String.eqb (String c r) (String k s) = false.
Proof. intros H. simpl. now rewrite H. Qed.

Lemma digit_not_keyword c r :
  DT.is_digit c = true -> is_keyword (String c r) = false.
Proof.
  intros H. unfold is_keyword, Str.strip. cbn [Str.lstrip].
  rewrite (digit_not_space c H). cbn [Str.rstrip].
  rewrite (digit_not_space c H). cbn [andb Str.lower].
  rewrite (lower_char_digit c H).
  assert (Hne : forall k, DT.is_digit k = false -> Ascii.eqb c k = false).
  { intros k Hk. apply Ascii.eqb_neq. intros ->. congruence. }
  unfold Str.mem, no_date_tokens, weekdays. cbn [existsb].
  rewrite !eqb_first_char by (apply Hne; reflexivity). reflexivity.
Qed.

Lemma of_int_first_digit m :
  1 <= m <= 12 ->
  exists c r, Str.of_int m = String c r /\ DT.is_digit c = true.
Proof.
  intros H.
  assert (Hc : m = 1 \/ m = 2 \/ m = 3 \/ m = 4 \/ m = 5 \/ m = 6 \/ m = 7
               \/ m = 8 \/ m = 9 \/ m = 10 \/ m = 11 \/ m = 12) by lia.
  repeat (destruct Hc as [-> | Hc]); try subst m;
    (eexists; eexists; split; [vm_compute; reflexivity | reflexivity]).
Qed.

Lemma of_ymd_ord2ymd n :
  1 <= n <= 3652059 ->
  let '(y, m, d) := DT.ord2ymd n in
  DT.of_ymd y m d = Some (DT.mkDT n 0).
Proof.
  intros H. pose proof (ord2ymd_spec n H) as Hs.
  destruct (DT.ord2ymd n) as [[y m] d].
  destruct Hs as (Hy & Hm & Hd & Hsum & _).
  unfold DT.of_ymd.
  replace ((1 <=? y) && (y <=? 9999) && (1 <=? m) && (m <=? 12)
           && (1 <=? d) && (d <=? DT.days_in_month y m)) with true by lia.
  now rewrite Hsum.
Qed.

Lemma days_in_month_max y m : DT.days_in_month y m <= 31.
Proof.
  unfold DT.days_in_month.
  destruct (m =? 2); [destruct (DT.is_leap y); lia|].
  destruct ((m =? 4) || (m =? 6) || (m =? 9) || (m =? 11)); lia.
Qed.

(** X22. What [_fmt_due] displays, [parse_due] reads back.  For a due
    date in the years 1000 to 9999 the text month/day/year parses, by the
    first format, to midnight of the same day (the time of day is not
    displayed, so it is not recovered); the dash displayed for a missing
    date parses to no date; and two dates of different days are displayed
    differently. *)
Theorem fmt_due_parse_roundtrip (now d : datetime) :
  364878 <= DT.ordinal d <= 3652059 ->
  parse_due now (Some (_fmt_due (Some d)))
  = Ok (Some (DT.mkDT (DT.ordinal d) 0))
  /\ parse_due now (Some (_fmt_due None)) = Ok None
  /\ (forall d', 364878 <= DT.ordinal d' <= 3652059 ->
        _fmt_due (Some d) = _fmt_due (Some d') ->
        DT.ordinal d = DT.ordinal d').
Proof.
  assert (Hrt : forall x, 364878 <= DT.ordinal x <= 3652059 ->
            parse_due now (Some (_fmt_due (Some x)))
            = Ok (Some (DT.mkDT (DT.ordinal x) 0))).
  { intros x Hx.
    assert (Hr : 1 <= DT.ordinal x <= 3652059) by lia.
    pose proof (ord2ymd_spec _ Hr) as Hs.
    pose proof (of_ymd_ord2ymd _ Hr) as Ho.
    unfold _fmt_due, DT.year, DT.month, DT.day.
    destruct (DT.ord2ymd (DT.ordinal x)) as [[y m] dd]. cbn [fst snd].
    destruct Hs as (Hy & Hm & Hd & _ & Hbig).
    specialize (Hbig (proj1 Hx)).
    pose proof (days_in_month_max y m) as Hmax.
    destruct (of_int_first_digit m Hm) as (c & r & Hc & Hdig).
    set (s := (Str.of_int m ++ "/" ++ Str.of_int dd ++ "/"
               ++ Str.of_int y)%string).
    assert (Hs : s = String c (r ++ "/" ++ Str.of_int dd ++ "/"
                               ++ Str.of_int y)%string).
    { unfold s. now rewrite Hc. }
    rewrite parse_due_cases.
    replace (Str.is_empty s) with false by now rewrite Hs.
    replace (is_keyword s) with false
      by (rewrite Hs; symmetry; now apply digit_not_keyword).
    unfold s. rewrite try_formats_fmts, strptime_fmt by lia.
    now rewrite Ho. }
  intros Hd. split; [now apply Hrt|]. split; [reflexivity|].
  intros d' Hd' E.
  pose proof (Hrt d Hd) as H1. pose proof (Hrt d' Hd') as H2.
  rewrite E, H2 in H1. now injection H1.
Qed.

Lemma fmt_due_parse_roundtrip_witness :
  parse_due (Sample.at_time 0)
    (Some (_fmt_due (Some (DT.mkDT 738945 DT.end_of_day_micros))))
  = Ok (Some (DT.mkDT 738945 0)).
Proof.
  apply (fmt_due_parse_roundtrip (Sample.at_time 0)
           (DT.mkDT 738945 DT.end_of_day_micros)).
  simpl. lia.
Defined.

Example fmt_due_leap_day :
  _fmt_due (Some (DT.mkDT 738945 DT.end_of_day_micros)) = "2/29/2024".
Proof. reflexivity. Qed.

(* ================================================================== *)
(** * [done] and the open tasks *)

Lemma nodup_id_unique ts : forall t u,
  NoDup (map unique_id ts) -> In t ts -> In u ts ->
  unique_id t = unique_id u -> t = u.
Proof.
  induction ts as [|x r IH]; intros t u Hn Ht Hu E; [destruct Ht|].
  simpl in Hn. inversion Hn as [|? ? Hx Hr]; subst.
  destruct Ht as [-> | Ht], Hu as [-> | Hu].
  - reflexivity.
  - exfalso. apply Hx. rewrite E. now apply in_map.
  - exfalso. apply Hx. rewrite <- E. now apply in_map.
  - now apply IH.
Qed.

Lemma open_mark_first i now ts :
  NoDup (map unique_id ts) ->
  filter (fun t => negb (Tasks.is_completed t)) (Tasks.mark_first i now ts)
  = filter (fun t => negb (Tasks.has_id i t))
      (filter (fun t => negb (Tasks.is_completed t)) ts).
Proof.
  induction ts as [|t r IH]; simpl; [reflexivity|].
  intros H. inversion H as [|? ? Ht Hr]; subst.
  assert (Hrest : forall u, In u r -> Tasks.has_id i t = true ->
                            Tasks.has_id i u = false).
  { intros u Hu E. destruct (Tasks.has_id i u) eqn:F; [|reflexivity].
    exfalso. apply Ht. unfold Tasks.has_id in E, F.
    apply Z.eqb_eq in E, F. rewrite E, <- F. now apply in_map. }
  destruct (Tasks.has_id i t) eqn:E.
  - cbn [filter Tasks.is_completed mark_completed completed negb].
    assert (Hr' : filter (fun u => negb (Tasks.has_id i u))
                    (filter (fun u => negb (Tasks.is_completed u)) r)
                  = filter (fun u => negb (Tasks.is_completed u)) r).
    { apply filter_all_in. intros u Hu. apply filter_In in Hu as [Hu _].
      now rewrite (Hrest u Hu eq_refl). }
    destruct (negb (Tasks.is_completed t)); simpl; rewrite ?E; simpl;
      now rewrite Hr'.
  - simpl. destruct (negb (Tasks.is_completed t)); simpl; rewrite ?E; simpl;
      now rewrite (IH Hr).
Qed.

(** X23. On a store with distinct ids, after [done(id)] the open tasks
    are the former open tasks without the one of that id, in the same
    order: the task disappears from [list(False)] and no other task is
    touched, whether or not the save succeeds; if no task has the id, or
    the task was completed already, the open tasks are as before. *)
Theorem done_then_open_tasks (s : State) (i : Z) (now : datetime) :
  NoDup (map unique_id (tasks s)) ->
  let s' := final (Tasks.done i now s) in
  Tasks.list false s'
  = filter (fun t => negb (Tasks.has_id i t)) (Tasks.list false s)
  /\ (forall t, In t (Tasks.list false s') -> unique_id t <> i)
  /\ (forall t, In t (Tasks.list false s) -> unique_id t <> i ->
        In t (Tasks.list false s'))
  /\ List.length (tasks s') = List.length (tasks s).
Proof.
  intros Hn. cbv zeta.
  assert (Hlist : Tasks.list false (final (Tasks.done i now s))
                  = filter (fun t => negb (Tasks.has_id i t))
                      (Tasks.list false s)).
  { unfold Tasks.list. rewrite done_effect.
    destruct (find (Tasks.has_id i) (tasks s)) as [t|] eqn:F.
    - destruct (completed t) eqn:C.
      + simpl. symmetry. apply filter_all_in. intros u Hu.
        apply filter_In in Hu as [Hu Hopen].
        destruct (Tasks.has_id i u) eqn:E; [|reflexivity]. exfalso.
        apply find_has_id in F as [Hin Hid].
        assert (u = t).
        { unfold Tasks.has_id in E. apply Z.eqb_eq in E.
          apply (nodup_id_unique (tasks s)); auto. congruence. }
        subst u. unfold Tasks.is_completed in Hopen. now rewrite C in Hopen.
      + cbv zeta.
        destruct (writable (disk s)); simpl; now apply open_mark_first.
    - simpl. symmetry. apply filter_all_in. intros u Hu.
      apply filter_In in Hu as [Hu _]. apply (find_none _ _ F) in Hu.
      now rewrite Hu. }
  split; [exact Hlist|]. split; [|split].
  - intros t. rewrite Hlist, filter_In. intros [_ H].
    unfold Tasks.has_id in H. now apply negb_true_iff, Z.eqb_neq in H.
  - intros t Hin Hne. rewrite Hlist, filter_In. split; [exact Hin|].
    unfold Tasks.has_id. now apply negb_true_iff, Z.eqb_neq.
  - rewrite done_effect.
    assert (Hlen : List.length (Tasks.mark_first i now (tasks s))
                   = List.length (tasks s)).
    { rewrite <- (length_map unique_id), mark_first_ids.
      apply length_map. }
    destruct (find (Tasks.has_id i) (tasks s)) as [t|];
      [destruct (completed t); [|destruct (writable (disk s))]|];
      simpl; auto.
Qed.

Lemma done_then_open_tasks_witness :
  Tasks.list false (final (Tasks.done 1 (Sample.at_time 7) Sample.two_tasks))
  = [].
Proof.
  assert (Hn : NoDup (map unique_id (tasks Sample.two_tasks))).
  { simpl. repeat constructor; simpl; intuition lia. }
  destruct (done_then_open_tasks Sample.two_tasks 1 (Sample.at_time 7) Hn)
    as (H & _).
  exact H.
Defined.
